(** * Evolutionary TSP engine: a shallow embedding and its properties

    The development follows the Python sources
      - [src/utils/metrics.py]      (distance matrix, tour length, fitness),
      - [src/algorithms/base.py]    (Individual, Population, Evolution),
      - [src/algorithms/tsp.py]     (TSP individual, [run_tsp_evolution]),
      - [src/utils/visualization.py] ([plot_route]).

    Conventions of the embedding.
      - A Python exception is a value [Raise e] of the [result] type.
      - Floating-point scores are an abstract type [K] with the operations
        the code applies to them ([Number]); the ordering laws that hold
        for floats other than NaN are a separate class ([NumberOrder]).
      - The ambient random generator is made explicit: every stochastic
        call receives the value it drew as an argument, and the library
        contract of that call ([sample_ok], [permutation_ok]) is a
        hypothesis of the theorems that need it. *)

From stdpp Require Import base list sorting strings pretty gmap.
From Stdlib Require Import QArith Qabs.

Open Scope Z_scope.
Open Scope nat_scope.

(** ** Exceptions *)

Inductive exn : Type :=
  | ValueError
  | IndexError
  | ZeroDivisionError
  | FileNotFoundError.

Inductive result (A : Type) : Type :=
  | Ok (a : A)
  | Raise (e : exn).
Arguments Ok {A} a.
Arguments Raise {A} e.

Definition rbind {A B : Type} (m : result A) (f : A → result B) : result B :=
  match m with
  | Ok a => f a
  | Raise e => Raise e
  end.

Definition rmap {A B : Type} (f : A → B) (m : result A) : result B :=
  rbind m (λ a, Ok (f a)).

Notation "'let*' x ':=' m 'in' k" := (rbind m (λ x, k))
  (at level 10, x binder, m at level 100, k at level 200,
   format "'[v' 'let*'  x  ':='  m  'in' '/' k ']'").

(** [l[i]] for a non-negative index: out of range raises IndexError. *)
Definition index {A : Type} (l : list A) (i : nat) : result A :=
  match l !! i with
  | Some a => Ok a
  | None => Raise IndexError
  end.

(** ** Numbers

    The operations the program applies to float scores; no algebraic law
    is assumed of them. *)
Class Number (K : Type) : Type := {
  nzero : K;
  nhundred : K;
  nadd : K → K → K;
  nsub : K → K → K;
  nmul : K → K → K;
  ndiv : K → K → K;
  nneg : K → K;
  nltb : K → K → bool;
}.

(** Python's [a < b] and [a > b] on scores. *)
Definition lt_ {K} `{Number K} (a b : K) : Prop := nltb a b = true.
Definition gtb {K} `{Number K} (a b : K) : bool := nltb b a.

(** [<] on floats that are not NaN is a strict weak order. *)
Class NumberOrder (K : Type) `{Number K} : Prop := {
  nlt_asym : ∀ a b : K, lt_ a b → ¬ lt_ b a;
  nlt_trans : ∀ a b c : K, lt_ a b → lt_ b c → lt_ a c;
  nlt_cotrans : ∀ a b c : K, lt_ a b → lt_ a c ∨ lt_ c b;
}.

(** [a <= b] as the sort and the tournament see it: not [b < a]. *)
Definition le_ {K} `{Number K} (a b : K) : Prop := ¬ lt_ b a.

(** Rationals are one model; they serve to run the program on exact
    inputs. *)
Definition Qltb (a b : Q) : bool := negb (Qle_bool b a).

Global Instance Q_number : Number Q := {|
  nzero := 0%Q;
  nhundred := 100%Q;
  nadd := Qplus;
  nsub := Qminus;
  nmul := Qmult;
  ndiv := Qdiv;
  nneg := Qopp;
  nltb := Qltb;
|}.

(** ** The random source

    [random.sample(range(n), k)] raises ValueError when [k] is negative or
    larger than [n]; otherwise it returns the list it drew, which holds [k]
    pairwise distinct members of [range(n)] in draw order. *)
Definition random_sample (n : nat) (k : Z) (drawn : list nat) : result (list nat) :=
  if bool_decide (k < 0 ∨ Z.of_nat n < k)%Z then Raise ValueError else Ok drawn.

Definition sample_ok (n : nat) (k : Z) (drawn : list nat) : Prop :=
  Z.of_nat (length drawn) = k ∧ NoDup drawn ∧ Forall (λ i, i < n) drawn.

Global Instance sample_ok_dec n k drawn : Decision (sample_ok n k drawn).
Proof. unfold sample_ok. apply _. Defined.

(** [np.random.permutation(n)] returns a permutation of [range(n)]. *)
Definition permutation_ok (n : nat) (drawn : list nat) : Prop :=
  drawn ≡ₚ seq 0 n.

(** ** [src/utils/metrics.py] *)

Section metrics.
Context {K : Type} `{Number K}.

(** [distances[i, j]] on a two-dimensional array. *)
Definition entry (distances : list (list K)) (i j : nat) : result K :=
  let* row := index distances i in
  index row j.

(** [calculate_distances(cities)]: a square array, zero on the diagonal,
    the norm of the coordinate difference elsewhere. [norm] stands for
    [np.linalg.norm] applied to a two-component vector. *)
Definition calculate_distances (norm : K * K → K) (cities : list (K * K))
    : list (list K) :=
  imap (λ i ci,
    imap (λ j cj,
      if bool_decide (i ≠ j)
      then norm (nsub ci.1 cj.1, nsub ci.2 cj.2)
      else nzero) cities) cities.

(** The closure [fitness] returned by [tsp_fitness_creator(distances)],
    as a function of [tsp.value]. City indices are naturals, as
    [np.random.permutation], [pair] and [mutate] produce them; the
    negative indices that numpy would count from the end are outside
    this model. *)
Definition tsp_fitness_creator (distances : list (list K)) (value : list nat)
    : result K :=
  let* route_length :=
    foldl (λ acc i,
      let* route_length := acc in
      let* from_city := index value i in
      let* to_city := index value ((i + 1) `mod` length value) in
      let* d := entry distances from_city to_city in
      Ok (nadd route_length d)) (Ok nzero) (seq 0 (length value)) in
  Ok (nneg route_length).

Definition get_route_length (route : list nat) (distances : list (list K))
    : result K :=
  foldl (λ acc i,
    let* length_ := acc in
    let* from_city := index route i in
    let* to_city := index route ((i + 1) `mod` length route) in
    let* d := entry distances from_city to_city in
    Ok (nadd length_ d)) (Ok nzero) (seq 0 (length route)).

(** The tour length as the specification words it: the legs between
    consecutive cities, the last city joined back to the first, added up
    in route order. *)
Definition legs_with_wraparound (route : list nat) : list (nat * nat) :=
  zip route (drop 1 route ++ take 1 route).

Definition sum_of_legs (distances : list (list K)) (legs : list (nat * nat))
    : result K :=
  foldl (λ acc leg,
    let* total := acc in
    let* d := entry distances leg.1 leg.2 in
    Ok (nadd total d)) (Ok nzero) legs.

End metrics.

(** ** [src/algorithms/base.py]: the Individual interface

    [pair_params], [mutate_params] and [init_params] are the parameter
    dictionaries; the [*Draw] types hold what the operation draws from the
    random source. [mutate] works in place: the model returns the mutated
    individual with the flag. *)
Class Individual (I : Type) : Type := {
  InitParams : Type;
  InitDraw : Type;
  PairParams : Type;
  PairDraw : Type;
  MutateParams : Type;
  MutateDraw : Type;
  _random_init : InitParams → InitDraw → I;
  pair : I → I → PairParams → PairDraw → result I;
  mutate : I → MutateParams → MutateDraw → result (I * bool);
}.

(** ** [src/algorithms/tsp.py]: the TSP individual *)

Record TSP : Type := mkTSP { value : list nat }.

Global Instance TSP_eq_dec : EqDecision TSP.
Proof. solve_decision. Defined.

Section tsp.
Context {K : Type} `{Number K}.

(** [start, end = sorted(random.sample(range(size), 2))]. Unpacking a
    list that does not hold two values raises ValueError. *)
Definition cut_points (size : nat) (drawn : list nat) : result (nat * nat) :=
  let* sampled := random_sample size 2 drawn in
  match sampled with
  | [a; b] => Ok (a `min` b, a `max` b)
  | _ => Raise ValueError
  end.

(** [TSP.pair]: ordered crossover. [alpha] is [pair_params['alpha']],
    which the operator never reads. *)
Definition TSP_pair (self other : TSP) (alpha : K) (drawn : list nat)
    : result TSP :=
  let size := length (value self) in
  let* '(start, end_) := cut_points size drawn in
  let child_p1 := take (end_ - start) (drop start (value self)) in
  let child_p1_set : gset nat := list_to_set child_p1 in
  let child_p2 := filter (λ city, city ∉ child_p1_set) (value other) in
  let child := take start child_p2 ++ child_p1 ++ drop start child_p2 in
  Ok (mkTSP child).

(** What [TSP.mutate] draws: the outcome of [random.random()] and, when
    the mutation fires, of [random.sample(range(len(self.value)), 2)]. *)
Record TSPMutateDraw : Type := mkMutateDraw {
  coin : K;
  swap_draw : list nat;
}.

(** [TSP.mutate]: [rate] is [mutate_params['rate']]. The right-hand side
    of the tuple assignment is read before either position is written. *)
Definition TSP_mutate (self : TSP) (rate : K) (d : TSPMutateDraw)
    : result (TSP * bool) :=
  if nltb (coin d) rate then
    let* sampled := random_sample (length (value self)) 2 (swap_draw d) in
    match sampled with
    | [i; j] =>
        let* vj := index (value self) j in
        let* vi := index (value self) i in
        Ok (mkTSP (<[j := vi]> (<[i := vj]> (value self))), true)
    | _ => Raise ValueError
    end
  else Ok (self, false).

(** [TSP._random_init]: the result of
    [np.random.permutation(init_params['n_cities'])]. *)
Definition TSP_random_init (n_cities : nat) (drawn : list nat) : TSP :=
  mkTSP drawn.

Global Instance TSP_Individual : Individual TSP := {|
  InitParams := nat;
  InitDraw := list nat;
  PairParams := K;
  PairDraw := list nat;
  MutateParams := K;
  MutateDraw := TSPMutateDraw;
  _random_init := TSP_random_init;
  pair := TSP_pair;
  mutate := TSP_mutate;
|}.

End tsp.

(** ** [src/algorithms/base.py]: Population and Evolution *)

Section base.
Context {K : Type} `{Number K} {I : Type} `{Individual I}.

(** [list.sort(key=...)] is stable and compares keys with [<]: an element
    moves left only past elements whose key is strictly greater. On keys
    ordered by a strict weak order its result is the one of this insertion
    sort, which puts [x] (coming from the left) before the first element
    whose key is not smaller than [x]'s. *)
Fixpoint insert_by_key (key : I → K) (x : I) (l : list I) : list I :=
  match l with
  | [] => [x]
  | y :: l' =>
      if nltb (key y) (key x) then y :: insert_by_key key x l' else x :: l
  end.

Definition sort_by_key (key : I → K) (l : list I) : list I :=
  foldr (insert_by_key key) [] l.

Record Population : Type := mkPopulation {
  fitness : I → K;
  individuals : list I;
}.

(** The order the population is kept in: [x] is not fitter than [y]. *)
Definition fitness_le (key : I → K) (x y : I) : Prop := le_ (key x) (key y).

Definition sorted_by_fitness (self : Population) : Prop :=
  Sorted (fitness_le (fitness self)) (individuals self).

(** [Population.__init__]: [draws i] is what the [i]-th
    [individual_class(init_params=init_params)] draws. [range(size)] is
    empty for [size < 1]. *)
Definition Population_init (size : Z) (fitness : I → K)
    (init_params : InitParams) (draws : nat → InitDraw) : Population :=
  let individuals :=
    (λ i, _random_init init_params (draws i)) <$> seq 0 (Z.to_nat size) in
  mkPopulation fitness (sort_by_key fitness individuals).

(** [Population.replace]. The slice [l[-size:]] is the whole list when
    [size] is 0 or exceeds the length. *)
Definition replace (self : Population) (new_individuals : list I)
    : Population :=
  let size := length (individuals self) in
  let merged :=
    sort_by_key (fitness self) (individuals self ++ new_individuals) in
  mkPopulation (fitness self)
    (if bool_decide (size = 0) then merged
     else drop (length merged - size) merged).

(** [Population.get_best_individual]: [self.individuals[-1]]. *)
Definition get_best_individual (self : Population) : result I :=
  match last (individuals self) with
  | Some best => Ok best
  | None => Raise IndexError
  end.

(** [Population.tournament_selection]; [drawn] is what
    [random.sample(range(len(self.individuals)), tournament_size)]
    returns. *)
Definition tournament_selection (self : Population) (tournament_size : Z)
    (drawn : list nat) : result I :=
  let* contestants_indices :=
    random_sample (length (individuals self)) tournament_size drawn in
  let* first_idx := index contestants_indices 0 in
  let* best_idx :=
    foldl (λ acc idx,
      let* best_idx := acc in
      let* challenger := index (individuals self) idx in
      let* best := index (individuals self) best_idx in
      if gtb (fitness self challenger) (fitness self best)
      then Ok idx else Ok best_idx)
      (Ok first_idx) (drop 1 contestants_indices) in
  index (individuals self) best_idx.

Record Evolution : Type := mkEvolution {
  pair_params : PairParams;
  mutate_params : MutateParams;
  pool : Population;
  n_offsprings : Z;
  tournament_size : Z;
}.

(** [Evolution.__init__]. *)
Definition Evolution_init (pool_size : Z) (fitness : I → K) (n_offsprings : Z)
    (pair_params : PairParams) (mutate_params : MutateParams)
    (init_params : InitParams) (tournament_size : Z)
    (draws : nat → InitDraw) : Evolution :=
  mkEvolution pair_params mutate_params
    (Population_init pool_size fitness init_params draws)
    n_offsprings tournament_size.

(** What one pass of the loop of [Evolution.step] draws. *)
Record OffspringDraw : Type := mkOffspringDraw {
  parent1_draw : list nat;
  parent2_draw : list nat;
  pair_draw : PairDraw;
  mutate_draw : MutateDraw;
}.

(** The loop [while len(new_individuals) < len(self.pool.individuals)].
    Every pass appends one offspring, so the loop makes
    [len(self.pool.individuals) - len(new_individuals)] passes; [todo] is
    that number and [pass] counts the passes made, to pick the draws. *)
Fixpoint offspring_loop (self : Evolution) (draws : nat → OffspringDraw)
    (todo pass : nat) (new_individuals : list I) (mutation_count : nat)
    : result (list I * nat) :=
  match todo with
  | 0 => Ok (new_individuals, mutation_count)
  | S todo' =>
      let d := draws pass in
      let* parent1 :=
        tournament_selection (pool self) (tournament_size self) (parent1_draw d) in
      let* parent2 :=
        tournament_selection (pool self) (tournament_size self) (parent2_draw d) in
      let* offspring := pair parent1 parent2 (pair_params self) (pair_draw d) in
      let* '(offspring, mutated) :=
        mutate offspring (mutate_params self) (mutate_draw d) in
      let mutation_count :=
        if mutated : bool then mutation_count + 1 else mutation_count in
      offspring_loop self draws todo' (S pass)
        (new_individuals ++ [offspring]) mutation_count
  end.

(** [Evolution.step]: returns the engine with the new pool, and the
    mutation count. The new list is stored as it was built. *)
Definition step (self : Evolution) (draws : nat → OffspringDraw)
    : result (Evolution * nat) :=
  let* best := get_best_individual (pool self) in
  let new_individuals := [best] in
  let* '(new_individuals, mutation_count) :=
    offspring_loop self draws
      (length (individuals (pool self)) - length new_individuals) 0
      new_individuals 0 in
  Ok (mkEvolution (pair_params self) (mutate_params self)
        (mkPopulation (fitness (pool self)) new_individuals)
        (n_offsprings self) (tournament_size self),
      mutation_count).

End base.

Arguments Population : clear implicits.
Arguments Evolution K I {_}.
Arguments OffspringDraw I {_}.

(** ** Effects of the run orchestration

    What [run_tsp_evolution] does to the outside: lines on standard
    output, drawing on the current matplotlib figure, and files written
    by [plt.savefig]. A computation yields the effects it performed, in
    order, and how it ended. *)
Inductive effect : Type :=
  | Print
  | PlotRoute (route : list nat)
  | PlotHistory
  | SaveFig (path : string).

Global Instance effect_eq_dec : EqDecision effect.
Proof. solve_decision. Defined.

Definition io (A : Type) : Type := (list effect * result A)%type.

Definition io_ret {A : Type} (a : A) : io A := ([], Ok a).

Definition io_bind {A B : Type} (m : io A) (f : A → io B) : io B :=
  match m with
  | (done, Ok a) => let '(more, r) := f a in (done ++ more, r)
  | (done, Raise e) => (done, Raise e)
  end.

Definition emit (e : effect) : io unit := ([e], Ok tt).

Definition lift {A : Type} (r : result A) : io A := ([], r).

Notation "'let!' x ':=' m 'in' k" := (io_bind m (λ x, k))
  (at level 10, x binder, m at level 100, k at level 200,
   format "'[v' 'let!'  x  ':='  m  'in' '/' k ']'").
Notation "m ';;' k" := (io_bind m (λ _, k))
  (at level 100, k at level 200, right associativity).

Fixpoint io_foldl {A B : Type} (f : A → B → io A) (a : A) (l : list B) : io A :=
  match l with
  | [] => io_ret a
  | b :: l' => let! a' := f a b in io_foldl f a' l'
  end.

(** The files a computation wrote, in order. *)
Definition saved {A : Type} (c : io A) : list string :=
  omap (λ e, match e with SaveFig path => Some path | _ => None end) c.1.

(** [c] writes the files [paths], in this order, and no other: all of
    them when it returns, the first few when it raises. *)
Definition writes_exactly {A : Type} (paths : list string) (c : io A) : Prop :=
  saved c `prefix_of` paths ∧ ∀ a, c.2 = Ok a → saved c = paths.

(** [print(...)]; every call in the orchestration is guarded by a flag. *)
Definition print (enabled : bool) : io unit :=
  if enabled then emit Print else io_ret tt.

(** [l[-k]] for [k >= 1]. *)
Definition index_from_end {A : Type} (l : list A) (k : nat) : result A :=
  if bool_decide (k ≤ length l) then index l (length l - k)
  else Raise IndexError.

(** What the run finds outside: whether [plt.savefig] can create a file
    under [results/], and the wall-clock time the loop took
    ([time.time()] differences feed nothing but [runtime] and log lines).
    A save that fails is modelled by the FileNotFoundError of a missing
    [results/] directory, the same for both files; what else the
    operating system may report is not distinguished. *)
Record Environment (K : Type) : Type := mkEnvironment {
  results_dir_ok : bool;
  elapsed : K;
}.
Arguments results_dir_ok {K} _.
Arguments elapsed {K} _.

Definition savefig {K : Type} (env : Environment K) (path : string) : io unit :=
  if results_dir_ok env then emit (SaveFig path)
  else lift (Raise FileNotFoundError).

(** ** [src/utils/visualization.py]: [plot_route]

    The coordinate and label look-ups raise IndexError; a non-empty
    [city_names] is indexed by city, an empty one is falsy and the label
    is [str(city_idx)]. The effect recorded is the finished drawing:
    what [plt.clf], [plt.scatter], [plt.plot] and [plt.text] have put on
    the current figure when a later look-up raises is not recorded, and
    city indices are naturals. *)
Definition plot_route {K : Type} (cities : list (K * K)) (route : list nat)
    (city_names : list string) : io unit :=
  let! coords := lift (foldl (λ acc city,
      let* coords := acc in
      let* c := index cities city in
      Ok (coords ++ [c])) (Ok []) route) in
  let! first_city := lift (index route 0) in
  let! closing := lift (index cities first_city) in
  let! labels := lift (foldl (λ acc city_idx,
      let* labels := acc in
      let* c := index cities city_idx in
      let* label :=
        if bool_decide (city_names ≠ [])
        then index city_names city_idx
        else Ok (pretty city_idx) in
      Ok (labels ++ [label])) (Ok []) route) in
  emit (PlotRoute route).

(** ** [src/algorithms/tsp.py]: [run_tsp_evolution] *)

Record RunResult (K : Type) : Type := mkRunResult {
  best_route : list nat;
  best_length : K;
  improvement : K;
  length_history : list K;
  runtime : K;
  improvements : nat;
  last_improvement : nat;
  total_mutations : nat;
}.
Arguments mkRunResult {K}.
Arguments best_route {K} _.
Arguments best_length {K} _.
Arguments improvement {K} _.
Arguments length_history {K} _.
Arguments runtime {K} _.
Arguments improvements {K} _.
Arguments last_improvement {K} _.
Arguments total_mutations {K} _.

Section run.
Context {K : Type} `{Number K}.

(** The fitness closure as the population holds it. The closure raises
    IndexError on a city index outside the matrix; the pool of a run only
    holds permutations of [range(n_cities)] and the matrix has [n_cities]
    rows and columns, so the closure returns on every individual it is
    applied to ([score_route] below) and the other branch is never
    taken. *)
Definition score (distances : list (list K)) (tsp : TSP) : K :=
  match tsp_fitness_creator distances (value tsp) with
  | Ok s => s
  | Raise _ => nzero
  end.

(** The random draws of a whole run: [init_draws i] for the [i]-th
    individual of the first population, [epoch_draws e p] for pass [p] of
    the step of epoch [e]. *)
Record RunDraws : Type := mkRunDraws {
  init_draws : nat → list nat;
  epoch_draws : nat → nat → OffspringDraw TSP;
}.

(** The variables the epoch loop updates. *)
Record RunState : Type := mkRunState {
  s_evo : Evolution K TSP;
  s_best_route : list nat;
  s_best_lengths : list K;
  s_improvements : nat;
  s_last_improvement : nat;
  s_total_mutations : nat;
}.

(** The body of [for epoch in range(n_epochs)]. *)
Definition epoch_body (draws : RunDraws) (verbose : bool) (st : RunState)
    (epoch : nat) : io RunState :=
  let! '(evo, mutations) := lift (step (s_evo st) (epoch_draws draws epoch)) in
  let total_mutations := s_total_mutations st + mutations in
  let! current_best := lift (get_best_individual (pool evo)) in
  let current_length := nneg (fitness (pool evo) current_best) in
  let best_lengths := s_best_lengths st ++ [current_length] in
  let! previous_length := lift (index_from_end best_lengths 2) in
  let improved := nltb current_length previous_length in
  let st' :=
    if improved
    then mkRunState evo (value current_best) best_lengths
           (s_improvements st + 1) epoch total_mutations
    else mkRunState evo (s_best_route st) best_lengths
           (s_improvements st) (s_last_improvement st) total_mutations in
  print (verbose && (bool_decide (epoch `mod` 10 = 0) || improved)) ;;
  io_ret st'.

(** [run_tsp_evolution]. With no city the lengths are the integer 0 and
    the improvement percentage divides integers; otherwise they are
    floats, whose division does not raise. The summary printed under
    [verbose] divides two integers by [n_epochs]. *)
Definition run_tsp_evolution (norm : K * K → K) (env : Environment K)
    (draws : RunDraws) (cities : list (K * K))
    (city_names : option (list string))
    (population_size tournament_size : Z) (mutation_rate : K)
    (n_offsprings n_epochs : Z) (crossover_alpha : K) (verbose : bool)
    : io (RunResult K) :=
  let n_cities := length cities in
  let city_names :=
    match city_names with
    | None => (λ i, pretty i) <$> seq 0 n_cities
    | Some names => names
    end in
  print verbose ;; print verbose ;; print verbose ;; print verbose ;;
  print verbose ;; print verbose ;; print verbose ;;
  let distances := calculate_distances norm cities in
  let fitness_closure := score distances in
  let evo :=
    Evolution_init population_size fitness_closure n_offsprings crossover_alpha
      mutation_rate n_cities tournament_size (init_draws draws) in
  print verbose ;;
  let! best_individual := lift (get_best_individual (pool evo)) in
  let best_route := value best_individual in
  let initial_length := nneg (fitness (pool evo) best_individual) in
  print verbose ;;
  let st := mkRunState evo best_route [initial_length] 0 0 0 in
  print verbose ;; print verbose ;; print verbose ;;
  let! st := io_foldl (epoch_body draws verbose) st
               (seq 0 (Z.to_nat n_epochs)) in
  let total_time := elapsed env in
  let! final_length := lift (index_from_end (s_best_lengths st) 1) in
  let! improvement_pct :=
    lift (if bool_decide (n_cities = 0) then Raise ZeroDivisionError
          else Ok (nmul (ndiv (nsub initial_length final_length)
                           initial_length) nhundred)) in
  print verbose ;; print verbose ;; print verbose ;; print verbose ;;
  print verbose ;; print verbose ;; print verbose ;; print verbose ;;
  print verbose ;;
  (if verbose
   then (if bool_decide (n_epochs = 0%Z)
         then lift (Raise ZeroDivisionError) else emit Print)
   else io_ret tt) ;;
  plot_route cities (s_best_route st) city_names ;;
  savefig env "results/tsp_final_route.png" ;;
  emit PlotHistory ;;
  savefig env "results/tsp_length_history.png" ;;
  plot_route cities (s_best_route st) city_names ;;
  io_ret (mkRunResult (s_best_route st) final_length improvement_pct
            (s_best_lengths st) total_time (s_improvements st)
            (s_last_improvement st) (s_total_mutations st)).

End run.

(** ** Well-formed engine states and draws (TSP) *)

Section validity.
Context {K : Type} `{Number K}.

(** The structural invariant of a TSP individual: every city of
    [range(n_cities)] exactly once. *)
Definition is_route (n_cities : nat) (tsp : TSP) : Prop :=
  value tsp ≡ₚ seq 0 n_cities.

(** An engine state as construction from valid parameters leaves it:
    a non-empty pool, sorted by fitness, of routes over at least two
    cities, and a tournament size the pool can serve. *)
Record valid_engine (n_cities : nat) (self : Evolution K TSP) : Prop := {
  valid_pool : individuals (pool self) ≠ [];
  valid_sorted : sorted_by_fitness (pool self);
  valid_routes : Forall (is_route n_cities) (individuals (pool self));
  valid_cities : 2 ≤ n_cities;
  valid_tournament :
    (1 ≤ tournament_size self ≤ Z.of_nat (length (individuals (pool self))))%Z;
}.

(** The library contracts of what one pass of [step] draws: two
    tournament samples, the two cut points, and, when the mutation coin
    falls below the rate, the two positions to swap. *)
Definition offspring_draw_ok (n_cities pool_size : nat) (tournament_size : Z)
    (rate : K) (d : OffspringDraw TSP) : Prop :=
  sample_ok pool_size tournament_size (parent1_draw d)
  ∧ sample_ok pool_size tournament_size (parent2_draw d)
  ∧ sample_ok n_cities 2 (pair_draw d)
  ∧ (nltb (coin (mutate_draw d)) rate = true →
     sample_ok n_cities 2 (swap_draw (mutate_draw d))).

Definition step_draws_ok (n_cities : nat) (self : Evolution K TSP)
    (draws : nat → OffspringDraw TSP) : Prop :=
  ∀ pass, pass < length (individuals (pool self)) - 1 →
    offspring_draw_ok n_cities (length (individuals (pool self)))
      (tournament_size self) (mutate_params self) (draws pass).

(** The contracts of everything a run draws. *)
Definition run_draws_ok (n_cities : nat) (population_size tournament_size : Z)
    (mutation_rate : K) (draws : RunDraws) : Prop :=
  (∀ i, permutation_ok n_cities (init_draws draws i))
  ∧ ∀ epoch pass,
      offspring_draw_ok n_cities (Z.to_nat population_size) tournament_size
        mutation_rate (epoch_draws draws epoch pass).

End validity.

(** What the epoch loop of a run keeps true of its variables: the pool
    has [pool_size] routes, the engine parameters are the run's, the
    history has [entries] entries and the best route is a route. *)
Definition run_invariant {K : Type} `{Number K} (n_cities pool_size : nat)
    (k : Z) (rate : K) (entries : nat) (st : RunState) : Prop :=
  length (individuals (pool (s_evo st))) = pool_size
  ∧ Forall (is_route n_cities) (individuals (pool (s_evo st)))
  ∧ tournament_size (s_evo st) = k
  ∧ mutate_params (s_evo st) = rate
  ∧ length (s_best_lengths st) = entries
  ∧ s_best_route st ≡ₚ seq 0 n_cities.

(** ** A worked instance

    Four cities on the x axis at 0, 1, 2, 3, scored in exact rationals;
    on such coordinate differences the Euclidean norm is the absolute
    value of the first component. *)
Definition axis_norm (v : Q * Q) : Q := Qabs v.1.

Definition axis_cities : list (Q * Q) := [(0, 0); (1, 0); (2, 0); (3, 0)]%Q.

Definition axis_distances : list (list Q) :=
  calculate_distances axis_norm axis_cities.

(** The first population: the tours 0-1-2-3 (length 6) and 0-2-1-3
    (length 8). *)
Definition axis_init_draws (i : nat) : list nat :=
  match i with
  | 0 => [0; 1; 2; 3]
  | _ => [0; 2; 1; 3]
  end.

(** Every pass draws the individual at index 0 for both tournaments, the
    cut points 0 and 1, and a coin of 1/2. *)
Definition axis_offspring_draw : OffspringDraw TSP :=
  mkOffspringDraw (I:=TSP) [0] [0] [0; 1] (mkMutateDraw (1 # 2)%Q []).

Definition axis_engine (population_size tournament_size : Z)
    : Evolution Q TSP :=
  Evolution_init population_size (score axis_distances) 30
    (1 # 2)%Q (1 # 100)%Q 4 tournament_size axis_init_draws.

(** The engine of two individuals after one step on those draws. *)
Definition axis_engine_after_step : Evolution Q TSP :=
  mkEvolution (I:=TSP) (1 # 2)%Q (1 # 100)%Q
    (mkPopulation (score axis_distances)
       [mkTSP [0; 1; 2; 3]; mkTSP [0; 2; 1; 3]]) 30 1.

Definition axis_draws : RunDraws :=
  mkRunDraws axis_init_draws (λ _ _, axis_offspring_draw).

Definition axis_env : Environment Q := mkEnvironment Q true 1%Q.

(** [run_tsp_evolution(axis_cities, population_size=..., tournament_size=...,
    mutation_rate=0.01, n_epochs=..., verbose=...)], other arguments at
    their defaults. *)
Definition axis_run (population_size tournament_size n_epochs : Z)
    (verbose : bool) : io (RunResult Q) :=
  run_tsp_evolution axis_norm axis_env axis_draws axis_cities None
    population_size tournament_size (1 # 100)%Q 30 n_epochs (1 # 2)%Q verbose.

(** A pass of a second step: the individual at index 1 for both
    tournaments, the cut points 0 and 1, and a coin of 1/2. *)
Definition axis_second_draw : OffspringDraw TSP :=
  mkOffspringDraw (I:=TSP) [1] [1] [0; 1] (mkMutateDraw (1 # 2)%Q []).

(** The engine of two individuals after a second step, on those draws. *)
Definition axis_engine_after_two_steps : Evolution Q TSP :=
  mkEvolution (I:=TSP) (1 # 2)%Q (1 # 100)%Q
    (mkPopulation (score axis_distances)
       [mkTSP [0; 2; 1; 3]; mkTSP [0; 2; 1; 3]]) 30 1.

(** The draws of a run whose first epoch is the step above and whose
    later epochs draw as the second step does. *)
Definition axis_two_epoch_draws : RunDraws :=
  mkRunDraws axis_init_draws
    (λ epoch _,
       match epoch with
       | 0 => axis_offspring_draw
       | _ => axis_second_draw
       end).

(** What a computation leaves behind: the files it wrote and how it
    ended. *)
Definition outcome {A : Type} (c : io A) : list string * result A :=
  (saved c, c.2).

(** The two files of a run. *)
Definition run_files : list string :=
  ["results/tsp_final_route.png"; "results/tsp_length_history.png"].

(** What the bookkeeping of the epoch loop keeps true after [epochs]
    epochs on a pool of [pool_size]: the history starts with the initial
    length and has one more entry per epoch; improvements, the epoch of
    the last one and the mutations are bounded by the epochs run. *)
Definition bookkeeping {K : Type} `{Number K} (pool_size : nat) (initial : K)
    (epochs : nat) (st : RunState) : Prop :=
  length (individuals (pool (s_evo st))) = pool_size
  ∧ head (s_best_lengths st) = Some initial
  ∧ length (s_best_lengths st) = S epochs
  ∧ s_improvements st ≤ epochs
  ∧ s_last_improvement st ≤ epochs - 1
  ∧ s_total_mutations st ≤ epochs * (pool_size - 1).

(** * Part II: properties of the embedding *)

(** ** Results, orders and samples *)

Lemma index_Ok {A : Type} (l : list A) (i : nat) (a : A) :
  index l i = Ok a ↔ l !! i = Some a.
Proof. unfold index. destruct (l !! i); split; congruence. Qed.

Section order_facts.
Context {K : Type} `{NumberOrder K}.

Lemma nlt_irrefl (a : K) : ¬ lt_ a a.
Proof. intros Ha. exact (nlt_asym a a Ha Ha). Qed.

Lemma le_refl_ (a : K) : le_ a a.
Proof. apply nlt_irrefl. Qed.

Lemma le_trans_ (a b c : K) : le_ a b → le_ b c → le_ a c.
Proof.
  unfold le_. intros Hab Hbc Hca.
  destruct (nlt_cotrans c a b Hca) as [Hcb | Hba]; tauto.
Qed.

Lemma lt_le_ (a b : K) : lt_ a b → le_ a b.
Proof. intros Hab Hba. exact (nlt_asym a b Hab Hba). Qed.

Lemma lt_le_trans_ (a b c : K) : lt_ a b → le_ b c → lt_ a c.
Proof.
  intros Hab Hbc. destruct (nlt_cotrans a b c Hab) as [? | Hcb]; [done |].
  by destruct Hbc.
Qed.

Lemma le_lt_trans_ (a b c : K) : le_ a b → lt_ b c → lt_ a c.
Proof.
  intros Hab Hbc. destruct (nlt_cotrans b c a Hbc) as [Hba | ?]; [| done].
  by destruct Hab.
Qed.

Lemma le_total_ (a b : K) : le_ a b ∨ le_ b a.
Proof.
  unfold le_, lt_. destruct (nltb b a) eqn:Hba; [right | left; congruence].
  intros Hab. exact (nlt_asym b a Hba Hab).
Qed.

Global Instance le_transitive : Transitive (le_ (K:=K)).
Proof. intros a b c. apply le_trans_. Qed.
End order_facts.

(** The rationals satisfy the ordering laws. *)
Lemma Qltb_spec (a b : Q) : Qltb a b = true ↔ (a < b)%Q.
Proof.
  unfold Qltb. rewrite negb_true_iff, <- not_true_iff_false, Qle_bool_iff.
  split; [apply Qnot_le_lt | apply Qlt_not_le].
Qed.

Global Instance Q_number_order : NumberOrder Q.
Proof.
  split; unfold lt_; simpl; intros a b.
  - rewrite !Qltb_spec. intros Hab Hba.
    exact (Qlt_irrefl a (Qlt_trans _ _ _ Hab Hba)).
  - intros c. rewrite !Qltb_spec. apply Qlt_trans.
  - intros c. rewrite !Qltb_spec. intros Hab.
    destruct (Qlt_le_dec a c) as [? | Hca]; [by left | right].
    eapply Qle_lt_trans; eauto.
Qed.

Lemma sample_ok_length n k drawn :
  sample_ok n k drawn → (Z.of_nat (length drawn) = k ∧ 0 ≤ k ≤ Z.of_nat n)%Z.
Proof.
  intros (Hlen & Hnd & Hlt). split; [done |]. subst k. split; [lia |].
  apply inj_le.
  assert (Hsub : drawn ⊆ seq 0 n).
  { intros i Hi. rewrite Forall_forall in Hlt. apply elem_of_seq.
    specialize (Hlt i Hi). lia. }
  pose proof (submseteq_length _ _ (NoDup_submseteq _ _ Hnd (λ x Hx, Hsub x Hx))) as Hl.
  by rewrite length_seq in Hl.
Qed.

Lemma random_sample_ok n k drawn :
  sample_ok n k drawn → random_sample n k drawn = Ok drawn.
Proof.
  intros Hs. apply sample_ok_length in Hs as [_ Hk].
  unfold random_sample. rewrite bool_decide_eq_false_2; [done | lia].
Qed.

Lemma random_sample_too_large n k drawn :
  (Z.of_nat n < k)%Z → random_sample n k drawn = Raise ValueError.
Proof.
  intros Hk. unfold random_sample. rewrite bool_decide_eq_true_2; [done | lia].
Qed.

(** ** Tour length and fitness ([metrics.py]) *)

Lemma foldl_seq_lookup {A B : Type} (f : A → nat → A) (g : A → B → A)
    (l : list B) (s : nat) (acc : A) :
  (∀ i x a, l !! i = Some x → f a (s + i) = g a x) →
  foldl f acc (seq s (length l)) = foldl g acc l.
Proof.
  revert s acc. induction l as [| x l IH]; intros s acc Hfg; [done |].
  simpl. rewrite <- (Hfg 0 x acc eq_refl), Nat.add_0_r.
  apply IH. intros i y a Hi.
  rewrite <- (Hfg (S i) y a Hi). f_equal. lia.
Qed.

Lemma lookup_rotation {A : Type} (l : list A) (i : nat) :
  i < length l →
  (drop 1 l ++ take 1 l) !! i = l !! ((i + 1) `mod` length l).
Proof.
  intros Hi. destruct (decide (i + 1 < length l)) as [Hlt | Hge].
  - rewrite Nat.mod_small by done.
    rewrite lookup_app_l by (rewrite length_drop; lia).
    rewrite lookup_drop. f_equal. lia.
  - assert (i + 1 = length l) as -> by lia.
    rewrite Nat.Div0.mod_same.
    rewrite lookup_app_r by (rewrite length_drop; lia).
    rewrite length_drop. replace (i - (length l - 1)) with 0 by lia.
    destruct l; [simpl in Hi; lia | done].
Qed.

Lemma legs_with_wraparound_lookup (route : list nat) (i a b : nat) :
  legs_with_wraparound route !! i = Some (a, b) →
  route !! i = Some a ∧ route !! ((i + 1) `mod` length route) = Some b.
Proof.
  unfold legs_with_wraparound. intros Hi.
  apply lookup_zip_with_Some in Hi as (a' & b' & [= <- <-] & Ha & Hb).
  split; [done |]. rewrite <- lookup_rotation; [done |].
  by eapply lookup_lt_Some.
Qed.

Lemma legs_with_wraparound_length (route : list nat) :
  length (legs_with_wraparound route) = length route.
Proof.
  unfold legs_with_wraparound.
  rewrite length_zip_with, length_app, length_drop, length_take. lia.
Qed.

Section metrics_facts.
Context {K : Type} `{Number K}.

Lemma get_route_length_sum_of_legs (route : list nat) (distances : list (list K)) :
  get_route_length route distances
  = sum_of_legs distances (legs_with_wraparound route).
Proof.
  unfold get_route_length, sum_of_legs.
  replace (seq 0 (length route))
    with (seq 0 (length (legs_with_wraparound route)))
    by (by rewrite legs_with_wraparound_length).
  apply foldl_seq_lookup. intros i [a b] acc Hi. simpl.
  apply legs_with_wraparound_lookup in Hi as [Ha Hb].
  unfold index at 1 2. rewrite Ha, Hb. done.
Qed.

(** C7. For every route and every distance matrix the fitness closure
    of [tsp_fitness_creator distances] returns the negation of
    [get_route_length route distances] (and raises exactly when it
    raises), and that length is the sum, in route order, of the distances
    between consecutive cities with the last city joined back to the
    first. *)
Theorem fitness_is_negated_route_length
    (distances : list (list K)) (route : list nat) :
  tsp_fitness_creator distances route
  = rmap nneg (get_route_length route distances)
  ∧ get_route_length route distances
    = sum_of_legs distances (legs_with_wraparound route).
Proof.
  split; [reflexivity |]. apply get_route_length_sum_of_legs.
Qed.

End metrics_facts.

(** ** The TSP operators ([tsp.py]) *)

Lemma sample_two (n : nat) (drawn : list nat) :
  sample_ok n 2 drawn ↔
  ∃ a b, drawn = [a; b] ∧ a ≠ b ∧ a < n ∧ b < n.
Proof.
  split.
  - intros (Hlen & Hnd & Hlt).
    destruct drawn as [| a [| b [| c drawn]]]; simpl in Hlen; try lia.
    exists a, b. apply NoDup_cons in Hnd as [Hab _].
    apply Forall_cons in Hlt as [Ha Hlt]. apply Forall_cons in Hlt as [Hb _].
    repeat split; try done. intros ->. apply Hab. left.
  - intros (a & b & -> & Hab & Ha & Hb). repeat split.
    + apply NoDup_cons. split; [| apply NoDup_singleton].
      intros Hin. apply list_elem_of_singleton in Hin. done.
    + by repeat constructor.
Qed.

Lemma cut_points_Ok (size : nat) (drawn : list nat) :
  sample_ok size 2 drawn →
  ∃ start end_,
    cut_points size drawn = Ok (start, end_) ∧ start < end_ ∧ end_ < size.
Proof.
  intros Hs. unfold cut_points. rewrite (random_sample_ok _ _ _ Hs).
  apply sample_two in Hs as (a & b & -> & Hab & Ha & Hb). simpl.
  exists (a `min` b), (a `max` b). split; [done | lia].
Qed.

(** C10. Whatever two cut points [TSP.pair] draws from [range(size)],
    sorting them gives [0 <= start < end <= size - 1]; [end = size] is
    never produced. *)
Theorem cut_points_never_reach_size (size : nat) (drawn : list nat) :
  sample_ok size 2 drawn →
  ∃ start end_,
    cut_points size drawn = Ok (start, end_)
    ∧ 0 ≤ start ∧ start < end_ ∧ end_ ≤ size - 1 ∧ end_ ≠ size.
Proof.
  intros Hs. destruct (cut_points_Ok size drawn Hs) as (s & e & Hc & Hse & He).
  exists s, e. split; [done | lia].
Qed.

Lemma swap_Permutation {A : Type} (l : list A) (i j : nat) (vi vj : A) :
  l !! i = Some vi → l !! j = Some vj →
  <[j := vi]> (<[i := vj]> l) ≡ₚ l.
Proof.
  intros Hi Hj.
  pose proof (lookup_lt_Some _ _ _ Hi) as Hil.
  pose proof (lookup_lt_Some _ _ _ Hj) as Hjl.
  apply Permutation_inj. split; [by rewrite !length_insert |].
  exists (λ k, if decide (k = i) then j else if decide (k = j) then i else k).
  split.
  - intros k1 k2. repeat case_decide; intros; subst; congruence.
  - intros k. destruct (decide (k = j)) as [-> | Hkj].
    + rewrite list_lookup_insert_eq by (by rewrite length_insert).
      destruct (decide (j = i)) as [-> | ?]; [| done]. congruence.
    + rewrite list_lookup_insert_ne by done.
      destruct (decide (k = i)) as [-> | Hki].
      * rewrite list_lookup_insert_eq by done. done.
      * by rewrite list_lookup_insert_ne.
Qed.

Section tsp_facts.
Context {K : Type} `{Number K}.

Lemma TSP_mutate_spec (self : TSP) (rate : K) (d : TSPMutateDraw) :
  (nltb (coin d) rate = true → sample_ok (length (value self)) 2 (swap_draw d)) →
  ∃ self' mutated,
    TSP_mutate self rate d = Ok (self', mutated)
    ∧ mutated = nltb (coin d) rate
    ∧ value self' ≡ₚ value self
    ∧ (if mutated
       then ∃ i j vi vj,
              swap_draw d = [i; j] ∧ i ≠ j
              ∧ value self !! i = Some vi ∧ value self !! j = Some vj
              ∧ value self' !! i = Some vj ∧ value self' !! j = Some vi
              ∧ ∀ k, k ≠ i → k ≠ j → value self' !! k = value self !! k
       else self' = self).
Proof.
  intros Hd. unfold TSP_mutate. destruct (nltb (coin d) rate) eqn:Hfire.
  - specialize (Hd eq_refl). rewrite (random_sample_ok _ _ _ Hd).
    apply sample_two in Hd as (i & j & -> & Hij & Hi & Hj). simpl.
    destruct (lookup_lt_is_Some_2 _ _ Hi) as [vi Hvi].
    destruct (lookup_lt_is_Some_2 _ _ Hj) as [vj Hvj].
    unfold index. rewrite Hvi, Hvj. simpl.
    eexists _, true. split; [done |]. split; [done |]. simpl.
    split; [by apply swap_Permutation |].
    exists i, j, vi, vj. repeat split; try done.
    + rewrite list_lookup_insert_ne by done.
      by rewrite list_lookup_insert_eq.
    + rewrite list_lookup_insert_eq; [done |]. by rewrite length_insert.
    + intros k Hki Hkj. by rewrite !list_lookup_insert_ne.
  - by exists self, false.
Qed.

(** C6. [mutate] either fires, swaps the values at the two distinct
    positions it drew and returns true, or leaves the value untouched and
    returns false (it fires exactly when the coin is below the rate); in
    both cases the values are a permutation of what they were. The two
    positions are the sample's, so they exist only when the value has at
    least two entries. *)
Theorem mutate_swaps_or_keeps (self : TSP) (rate : K) (d : TSPMutateDraw) :
  (nltb (coin d) rate = true → sample_ok (length (value self)) 2 (swap_draw d)) →
  ∃ self' mutated,
    TSP_mutate self rate d = Ok (self', mutated)
    ∧ mutated = nltb (coin d) rate
    ∧ value self' ≡ₚ value self
    ∧ (if mutated
       then ∃ i j vi vj,
              swap_draw d = [i; j] ∧ i ≠ j
              ∧ value self !! i = Some vi ∧ value self !! j = Some vj
              ∧ value self' !! i = Some vj ∧ value self' !! j = Some vi
              ∧ ∀ k, k ≠ i → k ≠ j → value self' !! k = value self !! k
       else self' = self).
Proof. apply TSP_mutate_spec. Qed.

Lemma filter_members_Permutation (seg l : list nat) :
  NoDup seg → NoDup l → seg ⊆ l →
  filter (λ city, city ∈ (list_to_set seg : gset nat)) l ≡ₚ seg.
Proof.
  intros Hseg Hl Hsub. apply NoDup_Permutation; [by apply NoDup_filter | done |].
  intros x. rewrite list_elem_of_filter, elem_of_list_to_set. split; [tauto |].
  intros Hx. split; [done | by apply Hsub].
Qed.

Lemma remaining_Permutation (seg l : list nat) :
  NoDup seg → NoDup l → seg ⊆ l →
  seg ++ filter (λ city, city ∉ (list_to_set seg : gset nat)) l ≡ₚ l.
Proof.
  intros Hseg Hl Hsub.
  rewrite <- (filter_members_Permutation seg l Hseg Hl Hsub) at 1.
  apply (filter_app_complement (λ city, city ∈ (list_to_set seg : gset nat))).
Qed.

Lemma TSP_pair_spec (self other : TSP) (alpha : K) (drawn : list nat) :
  NoDup (value self) →
  value other ≡ₚ value self →
  sample_ok (length (value self)) 2 drawn →
  ∃ start end_ child,
    cut_points (length (value self)) drawn = Ok (start, end_)
    ∧ TSP_pair self other alpha drawn = Ok child
    ∧ value child ≡ₚ value self
    ∧ NoDup (value child)
    ∧ length (value child) = length (value self)
    ∧ take (end_ - start) (drop start (value child))
      = take (end_ - start) (drop start (value self))
    ∧ take start (value child) ++ drop end_ (value child)
      = filter (λ city, city ∉ take (end_ - start) (drop start (value self)))
          (value other).
Proof.
  intros Hnd Hperm Hs.
  destruct (cut_points_Ok _ _ Hs) as (s & e & Hc & Hse & He).
  unfold TSP_pair. rewrite Hc. simpl.
  set (seg := take (e - s) (drop s (value self))).
  set (rest := filter (λ city, city ∉ (list_to_set seg : gset nat)) (value other)).
  assert (Hseglen : length seg = e - s).
  { unfold seg. rewrite length_take, length_drop. lia. }
  assert (Hsegnd : NoDup seg).
  { unfold seg. eapply sublist_NoDup; [exact Hnd |].
    etrans; [apply sublist_take | apply sublist_drop]. }
  assert (Hothernd : NoDup (value other)) by (by rewrite Hperm).
  assert (Hsub : seg ⊆ value other).
  { intros x Hx. rewrite Hperm. unfold seg in Hx.
    by apply subseteq_drop with s, subseteq_take with (e - s). }
  pose proof (remaining_Permutation seg (value other) Hsegnd Hothernd Hsub) as Hall.
  fold rest in Hall.
  assert (Hrestlen : length rest = length (value self) - (e - s)).
  { apply Permutation_length in Hall. rewrite length_app in Hall.
    rewrite (Permutation_length Hperm) in Hall. lia. }
  assert (Hchild : take s rest ++ seg ++ drop s rest ≡ₚ value self).
  { rewrite <- Hperm, <- Hall.
    rewrite (Permutation_app_comm (take s rest)), <- app_assoc.
    by rewrite (Permutation_app_comm (drop s rest)), take_drop. }
  exists s, e, (mkTSP (take s rest ++ seg ++ drop s rest)). simpl.
  split; [done |]. split; [done |]. split; [done |].
  split; [by rewrite Hchild |].
  split; [by rewrite Hchild |].
  assert (Htl : length (take s rest) = s) by (rewrite length_take; lia).
  split.
  - rewrite drop_app_length' by done. by rewrite take_app_length'.
  - rewrite take_app_length' by done.
    rewrite drop_app_ge by lia. rewrite Htl.
    rewrite drop_app_length' by lia. rewrite take_drop.
    unfold rest. apply list_filter_iff. intros x.
    by rewrite elem_of_list_to_set.
Qed.

(** C4. For parents that are permutations of the same cities and any two
    cut points the operator can draw, [pair] returns a child that is a
    permutation of those cities without duplicates; the child carries
    [self.value[start:end]] at positions [start..end], and its other
    positions, read left to right, are the cities of [other] outside the
    segment in the order [other] has them. *)
Theorem pair_yields_permutation (self other : TSP) (alpha : K) (drawn : list nat) :
  NoDup (value self) →
  value other ≡ₚ value self →
  sample_ok (length (value self)) 2 drawn →
  ∃ start end_ child,
    cut_points (length (value self)) drawn = Ok (start, end_)
    ∧ TSP_pair self other alpha drawn = Ok child
    ∧ value child ≡ₚ value self
    ∧ NoDup (value child)
    ∧ length (value child) = length (value self)
    ∧ take (end_ - start) (drop start (value child))
      = take (end_ - start) (drop start (value self))
    ∧ take start (value child) ++ drop end_ (value child)
      = filter (λ city, city ∉ take (end_ - start) (drop start (value self)))
          (value other).
Proof. apply TSP_pair_spec. Qed.

End tsp_facts.

(** ** Sorting, the best individual and the tournament ([base.py]) *)

Section base_facts.
Context {K : Type} `{NumberOrder K} {I : Type} `{Individual I}.

Global Instance fitness_le_transitive (key : I → K) : Transitive (fitness_le key).
Proof. intros x y z. apply le_trans_. Qed.

Lemma insert_by_key_Permutation (key : I → K) (x : I) (l : list I) :
  insert_by_key key x l ≡ₚ x :: l.
Proof.
  induction l as [| y l IH]; simpl; [done |].
  destruct (nltb (key y) (key x)); [| done].
  rewrite IH. apply Permutation_swap.
Qed.

Lemma sort_by_key_Permutation (key : I → K) (l : list I) :
  sort_by_key key l ≡ₚ l.
Proof.
  induction l as [| x l IH]; simpl; [done |].
  by rewrite insert_by_key_Permutation, IH.
Qed.

Lemma sort_by_key_length (key : I → K) (l : list I) :
  length (sort_by_key key l) = length l.
Proof. apply Permutation_length, sort_by_key_Permutation. Qed.

Lemma insert_by_key_Sorted (key : I → K) (x : I) (l : list I) :
  Sorted (fitness_le key) l → Sorted (fitness_le key) (insert_by_key key x l).
Proof.
  induction l as [| y l IH]; intros Hl; simpl.
  - by repeat constructor.
  - destruct (nltb (key y) (key x)) eqn:Hyx.
    + apply Sorted_inv in Hl as [Hl Hhd]. constructor; [by apply IH |].
      destruct l as [| z l]; simpl.
      * constructor. by apply lt_le_.
      * destruct (nltb (key z) (key x)); constructor.
        -- by inversion Hhd.
        -- by apply lt_le_.
    + constructor; [done |]. constructor.
      unfold fitness_le, le_, lt_. congruence.
Qed.

Lemma sort_by_key_Sorted (key : I → K) (l : list I) :
  Sorted (fitness_le key) (sort_by_key key l).
Proof.
  induction l as [| x l IH]; simpl; [constructor |].
  by apply insert_by_key_Sorted.
Qed.

Lemma Sorted_last_max (key : I → K) (l : list I) (best x : I) :
  Sorted (fitness_le key) l → last l = Some best → x ∈ l →
  fitness_le key x best.
Proof.
  intros Hl Hlast Hx. apply Sorted_StronglySorted in Hl; [| apply _].
  apply last_Some in Hlast as [l' ->].
  apply elem_of_app in Hx as [Hx | Hx].
  - eapply StronglySorted_app_1_elem_of; [done.. | left].
  - apply list_elem_of_singleton in Hx as ->. apply le_refl_.
Qed.

Lemma Sorted_drop (key : I → K) (n : nat) (l : list I) :
  Sorted (fitness_le key) l → Sorted (fitness_le key) (drop n l).
Proof.
  revert l. induction n as [| n IH]; intros [| x l] Hl; simpl; try done.
  apply IH. by apply Sorted_inv in Hl as [? _].
Qed.

(** Construction sorts the population, whatever the size. *)
Lemma Population_init_sorted (size : Z) (fit : I → K)
    (init_params : InitParams) (draws : nat → InitDraw) :
  sorted_by_fitness (Population_init size fit init_params draws)
  ∧ length (individuals (Population_init size fit init_params draws))
    = Z.to_nat size.
Proof.
  split; [apply sort_by_key_Sorted |]. simpl.
  by rewrite sort_by_key_length, length_fmap, length_seq.
Qed.

(** [replace] leaves the population sorted. *)
Lemma replace_sorted (self : Population K I) (new_individuals : list I) :
  sorted_by_fitness (replace self new_individuals).
Proof.
  unfold sorted_by_fitness, replace. simpl. case_bool_decide.
  - apply sort_by_key_Sorted.
  - apply Sorted_drop, sort_by_key_Sorted.
Qed.

(** On a sorted, non-empty population [get_best_individual] returns a
    fittest member. *)
Lemma get_best_individual_sorted (self : Population K I) :
  sorted_by_fitness self → individuals self ≠ [] →
  ∃ best,
    get_best_individual self = Ok best
    ∧ best ∈ individuals self
    ∧ ∀ x, x ∈ individuals self → le_ (fitness self x) (fitness self best).
Proof.
  intros Hsorted Hne. unfold get_best_individual.
  destruct (last (individuals self)) as [best |] eqn:Hlast.
  - exists best. split; [done |]. split.
    + apply last_Some in Hlast as [l' ->]. apply elem_of_app. right. left.
    + intros x Hx. by eapply (Sorted_last_max (fitness self)).
  - by apply last_None in Hlast.
Qed.

Lemma get_best_individual_empty (self : Population K I) :
  individuals self = [] → get_best_individual self = Raise IndexError.
Proof. unfold get_best_individual. by intros ->. Qed.

(** The loop of [tournament_selection] keeps the first drawn index whose
    fitness no later one beats. *)
Lemma tournament_loop_invariant (self : Population K I) (first_idx : nat)
    (rest : list nat) :
  Forall (λ i, i < length (individuals self)) (first_idx :: rest) →
  ∃ pos best_idx best,
    foldl (λ acc idx,
      let* best_idx := acc in
      let* challenger := index (individuals self) idx in
      let* best := index (individuals self) best_idx in
      if gtb (fitness self challenger) (fitness self best)
      then Ok idx else Ok best_idx) (Ok first_idx) rest = Ok best_idx
    ∧ (first_idx :: rest) !! pos = Some best_idx
    ∧ individuals self !! best_idx = Some best
    ∧ (∀ pos' idx' x,
         (first_idx :: rest) !! pos' = Some idx' →
         individuals self !! idx' = Some x →
         le_ (fitness self x) (fitness self best))
    ∧ (∀ pos' idx' x,
         pos' < pos →
         (first_idx :: rest) !! pos' = Some idx' →
         individuals self !! idx' = Some x →
         lt_ (fitness self x) (fitness self best)).
Proof.
  induction rest as [| idx rest IH] using rev_ind; intros Hall.
  - apply Forall_cons in Hall as [Hfirst _].
    destruct (lookup_lt_is_Some_2 _ _ Hfirst) as [best Hbest].
    exists 0, first_idx, best. simpl. repeat split; try done.
    + intros [| pos'] idx' x Hpos Hx; simplify_eq/=. apply le_refl_.
    + intros; lia.
  - rewrite app_comm_cons in Hall. apply Forall_app in Hall as [Hall Hidx].
    rewrite Forall_singleton in Hidx.
    destruct (IH Hall) as (pos & best_idx & best & Hfold & Hpos & Hbest & Hle & Hlt).
    destruct (lookup_lt_is_Some_2 _ _ Hidx) as [challenger Hch].
    pose proof (lookup_lt_Some _ _ _ Hpos) as Hposlt.
    rewrite foldl_app, Hfold. simpl. unfold index. rewrite Hch, Hbest. simpl.
    unfold gtb. destruct (nltb (fitness self best) (fitness self challenger)) eqn:Hbeat.
    + exists (length (first_idx :: rest)), idx, challenger.
      split; [done |]. split.
      { rewrite app_comm_cons. by rewrite lookup_app_r, Nat.sub_diag. }
      split; [done |].
      assert (Hold : ∀ pos' idx' x,
        (first_idx :: rest) !! pos' = Some idx' →
        individuals self !! idx' = Some x →
        lt_ (fitness self x) (fitness self challenger)).
      { intros pos' idx' x Hp Hx. eapply le_lt_trans_; [by eapply Hle | done]. }
      split.
      * intros pos' idx' x Hp Hx. rewrite app_comm_cons in Hp.
        apply lookup_app_Some in Hp as [Hp | [_ Hp]].
        -- apply lt_le_. by eapply Hold.
        -- apply list_lookup_singleton_Some in Hp as [_ <-].
           simplify_eq. apply le_refl_.
      * intros pos' idx' x Hp' Hp Hx. rewrite app_comm_cons in Hp.
        rewrite lookup_app_l in Hp by done. by eapply Hold.
    + exists pos, best_idx, best. split; [done |]. split.
      { rewrite app_comm_cons. by rewrite lookup_app_l. }
      split; [done |]. split.
      * intros pos' idx' x Hp Hx. rewrite app_comm_cons in Hp.
        apply lookup_app_Some in Hp as [Hp | [_ Hp]].
        -- by eapply Hle.
        -- apply list_lookup_singleton_Some in Hp as [_ <-].
           simplify_eq. unfold le_, lt_. congruence.
      * intros pos' idx' x Hp' Hp Hx. rewrite app_comm_cons in Hp.
        rewrite lookup_app_l in Hp by lia. by eapply Hlt.
Qed.

Lemma tournament_selection_spec (self : Population K I) (k : Z)
    (drawn : list nat) :
  (1 ≤ k ≤ Z.of_nat (length (individuals self)))%Z →
  sample_ok (length (individuals self)) k drawn →
  ∃ pos idx winner,
    tournament_selection self k drawn = Ok winner
    ∧ Z.of_nat (length drawn) = k ∧ NoDup drawn
    ∧ drawn !! pos = Some idx
    ∧ individuals self !! idx = Some winner
    ∧ (∀ pos' idx' x,
         drawn !! pos' = Some idx' → individuals self !! idx' = Some x →
         le_ (fitness self x) (fitness self winner))
    ∧ (∀ pos' idx' x,
         pos' < pos →
         drawn !! pos' = Some idx' → individuals self !! idx' = Some x →
         lt_ (fitness self x) (fitness self winner)).
Proof.
  intros Hk Hs. unfold tournament_selection.
  rewrite (random_sample_ok _ _ _ Hs).
  destruct Hs as (Hlen & Hnd & Hall). simpl.
  destruct drawn as [| first_idx rest]; [simpl in Hlen; lia |]. simpl.
  rewrite drop_0.
  destruct (tournament_loop_invariant self first_idx rest Hall)
    as (pos & best_idx & best & Hfold & Hpos & Hbest & Hle & Hlt).
  rewrite Hfold. simpl. unfold index. rewrite Hbest.
  exists pos, best_idx, best. done.
Qed.

(** C5. On a population of [n] individuals and for [1 <= k <= n],
    [tournament_selection(k)] returns one of the [k] distinct individuals
    the sample drew, none of the drawn is fitter than it, and every one
    drawn before it is strictly less fit: among the fittest contestants
    the first drawn wins. *)
Theorem tournament_selection_first_fittest (self : Population K I) (k : Z)
    (drawn : list nat) :
  (1 ≤ k ≤ Z.of_nat (length (individuals self)))%Z →
  sample_ok (length (individuals self)) k drawn →
  ∃ pos idx winner,
    tournament_selection self k drawn = Ok winner
    ∧ Z.of_nat (length drawn) = k ∧ NoDup drawn
    ∧ drawn !! pos = Some idx
    ∧ individuals self !! idx = Some winner
    ∧ (∀ pos' idx' x,
         drawn !! pos' = Some idx' → individuals self !! idx' = Some x →
         le_ (fitness self x) (fitness self winner))
    ∧ (∀ pos' idx' x,
         pos' < pos →
         drawn !! pos' = Some idx' → individuals self !! idx' = Some x →
         lt_ (fitness self x) (fitness self winner)).
Proof. apply tournament_selection_spec. Qed.

End base_facts.

(** ** One generation ([Evolution.step]) on TSP individuals *)

Section engine_facts.
Context {K : Type} `{NumberOrder K}.

Lemma is_route_length (n_cities : nat) (tsp : TSP) :
  is_route n_cities tsp → length (value tsp) = n_cities.
Proof. intros Hr. by rewrite (Permutation_length Hr), length_seq. Qed.

Lemma is_route_NoDup (n_cities : nat) (tsp : TSP) :
  is_route n_cities tsp → NoDup (value tsp).
Proof. intros Hr. rewrite Hr. apply NoDup_seq. Qed.

Lemma TSP_pair_route (n_cities : nat) (self other : TSP) (alpha : K)
    (drawn : list nat) :
  is_route n_cities self → is_route n_cities other →
  sample_ok n_cities 2 drawn →
  ∃ child, TSP_pair self other alpha drawn = Ok child ∧ is_route n_cities child.
Proof.
  intros Hself Hother Hs.
  rewrite <- (is_route_length _ _ Hself) in Hs.
  destruct (TSP_pair_spec self other alpha drawn) as
    (s & e & child & _ & Hpair & Hperm & _); [| | done |].
  - by eapply is_route_NoDup.
  - unfold is_route in *. by rewrite Hself, Hother.
  - exists child. split; [done |]. unfold is_route in *. by rewrite Hperm.
Qed.

Lemma TSP_mutate_route (n_cities : nat) (self : TSP) (rate : K)
    (d : TSPMutateDraw) :
  is_route n_cities self →
  (nltb (coin d) rate = true → sample_ok n_cities 2 (swap_draw d)) →
  ∃ self' mutated,
    TSP_mutate self rate d = Ok (self', mutated) ∧ is_route n_cities self'.
Proof.
  intros Hself Hd. rewrite <- (is_route_length _ _ Hself) in Hd.
  destruct (TSP_mutate_spec self rate d Hd) as (self' & b & Hm & _ & Hperm & _).
  exists self', b. split; [done |]. unfold is_route in *. by rewrite Hperm.
Qed.

Lemma tournament_selection_member {I : Type} `{Individual I}
    (self : Population K I) (k : Z) (drawn : list nat) :
  (1 ≤ k ≤ Z.of_nat (length (individuals self)))%Z →
  sample_ok (length (individuals self)) k drawn →
  ∃ winner,
    tournament_selection self k drawn = Ok winner ∧ winner ∈ individuals self.
Proof.
  intros Hk Hs.
  destruct (tournament_selection_spec self k drawn Hk Hs)
    as (pos & idx & winner & Hsel & _ & _ & _ & Hw & _).
  exists winner. split; [done |]. by eapply list_elem_of_lookup_2.
Qed.

(** Among finitely many individuals one is fittest. *)
Lemma fittest_exists {I : Type} (key : I → K) (l : list I) :
  l ≠ [] → ∃ top, top ∈ l ∧ ∀ y, y ∈ l → le_ (key y) (key top).
Proof.
  induction l as [| x l IH]; [done |]. intros _.
  destruct l as [| x' l].
  - exists x. split; [left |]. intros y Hy.
    apply list_elem_of_singleton in Hy as ->. apply le_refl_.
  - destruct IH as (top & Htop & Hmax); [done |].
    destruct (le_total_ (key x) (key top)) as [Hle | Hle].
    + exists top. split; [by right |]. intros y Hy.
      apply elem_of_cons in Hy as [-> | Hy]; [done | by apply Hmax].
    + exists x. split; [left |]. intros y Hy.
      apply elem_of_cons in Hy as [-> | Hy]; [apply le_refl_ |].
      eapply le_trans_; [by apply Hmax | done].
Qed.

(** With draws that meet their contracts the loop of [step] makes all
    its passes: it appends [todo] offspring, each a route. *)
Lemma offspring_loop_routes (n_cities : nat) (self : Evolution K TSP)
    (draws : nat → OffspringDraw TSP) (todo pass : nat)
    (new_individuals : list TSP) (mutation_count : nat) :
  Forall (is_route n_cities) (individuals (pool self)) →
  (1 ≤ tournament_size self ≤ Z.of_nat (length (individuals (pool self))))%Z →
  (∀ i, pass ≤ i < pass + todo →
        offspring_draw_ok (K:=K) n_cities (length (individuals (pool self)))
          (tournament_size self) (mutate_params self) (draws i)) →
  ∃ offspring mutation_count',
    offspring_loop self draws todo pass new_individuals mutation_count
    = Ok (new_individuals ++ offspring, mutation_count')
    ∧ length offspring = todo
    ∧ Forall (is_route n_cities) offspring.
Proof.
  intros Hroutes Hk. rewrite Forall_forall in Hroutes.
  revert pass new_individuals mutation_count.
  induction todo as [| todo IH]; intros pass new_individuals mutation_count Hd.
  - exists [], mutation_count. simpl. by rewrite app_nil_r.
  - destruct (Hd pass) as (Hd1 & Hd2 & Hd3 & Hd4); [lia |].
    destruct (tournament_selection_member _ _ _ Hk Hd1) as (parent1 & Hp1 & Hin1).
    destruct (tournament_selection_member _ _ _ Hk Hd2) as (parent2 & Hp2 & Hin2).
    destruct (TSP_pair_route n_cities parent1 parent2 (pair_params self)
                (pair_draw (draws pass)))
      as (child & Hpair & Hchild); [by apply Hroutes | by apply Hroutes | done |].
    destruct (TSP_mutate_route n_cities child (mutate_params self)
                (mutate_draw (draws pass)) Hchild Hd4)
      as (child' & mutated & Hmut & Hchild').
    destruct (IH (S pass) (new_individuals ++ [child'])
                (if mutated then mutation_count + 1 else mutation_count))
      as (offspring & mc' & Hloop & Hlen & Hall).
    { intros i Hi. apply Hd. lia. }
    exists (child' :: offspring), mc'. split.
    + assert (Hpair' : pair parent1 parent2 (pair_params self)
                         (pair_draw (draws pass)) = Ok child) by exact Hpair.
      assert (Hmut' : mutate child (mutate_params self)
                        (mutate_draw (draws pass)) = Ok (child', mutated))
        by exact Hmut.
      cbn [offspring_loop]. rewrite Hp1, Hp2. cbn [rbind].
      rewrite Hpair'. cbn [rbind]. rewrite Hmut'. cbn [rbind]. rewrite Hloop.
      by rewrite <- app_assoc.
    + split; [simpl; lia | by constructor].
Qed.

(** [step] returns on a non-empty pool of routes, sorted or not: the
    last individual heads the new pool, followed by the offspring. *)
Lemma step_routes (n_cities : nat) (self : Evolution K TSP)
    (draws : nat → OffspringDraw TSP) :
  individuals (pool self) ≠ [] →
  Forall (is_route n_cities) (individuals (pool self)) →
  (1 ≤ tournament_size self ≤ Z.of_nat (length (individuals (pool self))))%Z →
  step_draws_ok n_cities self draws →
  ∃ mutations best offspring,
    step self draws
    = Ok (mkEvolution (pair_params self) (mutate_params self)
            (mkPopulation (fitness (pool self)) (best :: offspring))
            (n_offsprings self) (tournament_size self), mutations)
    ∧ last (individuals (pool self)) = Some best
    ∧ length offspring = length (individuals (pool self)) - 1
    ∧ Forall (is_route n_cities) (best :: offspring).
Proof.
  intros Hne Hroutes Hk Hd.
  destruct (last (individuals (pool self))) as [best |] eqn:Hlast;
    [| by apply last_None in Hlast].
  destruct (offspring_loop_routes n_cities self draws
              (length (individuals (pool self)) - 1) 0 [best] 0 Hroutes Hk)
    as (offspring & mc & Hloop & Hlen & Hall).
  { intros i Hi. apply Hd. lia. }
  exists mc, best, offspring.
  unfold step, get_best_individual. rewrite Hlast. cbn [rbind length].
  rewrite Hloop. cbn [rbind]. split_and!; try done.
  constructor; [| done]. rewrite Forall_forall in Hroutes. apply Hroutes.
  apply last_Some in Hlast as [l' ->]. apply elem_of_app. right. left.
Qed.

(** What [step] does to a valid engine. *)
Lemma step_spec (n_cities : nat) (self : Evolution K TSP)
    (draws : nat → OffspringDraw TSP) :
  valid_engine n_cities self →
  step_draws_ok n_cities self draws →
  ∃ self' mutations best offspring,
    step self draws = Ok (self', mutations)
    ∧ get_best_individual (pool self) = Ok best
    ∧ best ∈ individuals (pool self)
    ∧ (∀ x, x ∈ individuals (pool self) →
            le_ (fitness (pool self) x) (fitness (pool self) best))
    ∧ individuals (pool self') = best :: offspring
    ∧ length offspring = length (individuals (pool self)) - 1
    ∧ Forall (is_route n_cities) offspring
    ∧ fitness (pool self') = fitness (pool self)
    ∧ tournament_size self' = tournament_size self
    ∧ mutate_params self' = mutate_params self.
Proof.
  intros Hvalid Hd.
  destruct (get_best_individual_sorted (pool self)
              (valid_sorted _ _ Hvalid) (valid_pool _ _ Hvalid))
    as (best & Hbest & Hin & Hmax).
  destruct (step_routes n_cities self draws (valid_pool _ _ Hvalid)
              (valid_routes _ _ Hvalid) (valid_tournament _ _ Hvalid) Hd)
    as (mc & best' & offspring & Hstep & Hlast & Hlen & Hall).
  assert (best' = best) as ->.
  { unfold get_best_individual in Hbest. rewrite Hlast in Hbest. congruence. }
  eexists _, mc, best, offspring. split; [exact Hstep |]. simpl.
  apply Forall_cons in Hall as [_ Hall]. done.
Qed.

(** X22. From an engine whose population is sorted by fitness, as
    construction and [replace] leave it (and as [step] does not), one
    call of [step] returns, the individual [get_best_individual] gave
    before the step (a fittest one) heads the new population unchanged,
    and so the greatest fitness in the new population is not below the
    greatest fitness before. *)
Theorem step_elitism (n_cities : nat) (self : Evolution K TSP)
    (draws : nat → OffspringDraw TSP) :
  valid_engine n_cities self →
  step_draws_ok n_cities self draws →
  ∃ self' mutations best top,
    step self draws = Ok (self', mutations)
    ∧ get_best_individual (pool self) = Ok best
    ∧ (∀ x, x ∈ individuals (pool self) →
            le_ (fitness (pool self) x) (fitness (pool self) best))
    ∧ individuals (pool self') !! 0 = Some best
    ∧ top ∈ individuals (pool self')
    ∧ (∀ y, y ∈ individuals (pool self') →
            le_ (fitness (pool self') y) (fitness (pool self') top))
    ∧ le_ (fitness (pool self) best) (fitness (pool self') top)
    ∧ (∀ x, x ∈ individuals (pool self) →
            le_ (fitness (pool self) x) (fitness (pool self') top)).
Proof.
  intros Hvalid Hd.
  destruct (step_spec n_cities self draws Hvalid Hd)
    as (self' & mutations & best & offspring & Hstep & Hbest & Hin & Hmax
        & Hnew & _ & _ & Hfit & _).
  destruct (fittest_exists (fitness (pool self')) (individuals (pool self')))
    as (top & Htop & Htopmax); [by rewrite Hnew |].
  assert (Hbt : le_ (fitness (pool self) best) (fitness (pool self') top)).
  { rewrite <- Hfit. apply Htopmax. rewrite Hnew. left. }
  exists self', mutations, best, top. split_and!; try done.
  - by rewrite Hnew.
  - intros x Hx. eapply le_trans_; [by apply Hmax | done].
Qed.

End engine_facts.

(** ** Parameters nobody checks *)

Lemma foldl_Raise {S B : Type} (f : result S → B → result S) (e : exn)
    (l : list B) :
  (∀ x, f (Raise e) x = Raise e) → foldl f (Raise e) l = Raise e.
Proof. intros Hf. induction l as [| x l IH]; simpl; [done |]. by rewrite Hf. Qed.

Lemma foldl_all_Ok {S B : Type} (f : result S → B → result S) (l : list B)
    (s : S) :
  (∀ s x, x ∈ l → ∃ s', f (Ok s) x = Ok s') →
  ∃ s', foldl f (Ok s) l = Ok s'.
Proof.
  revert s. induction l as [| x l IH]; intros s Hf; simpl; [by exists s |].
  destruct (Hf s x) as [s' ->]; [left |].
  apply IH. intros s'' y Hy. apply Hf. by right.
Qed.

Lemma foldl_some_Raise {S B : Type} (f : result S → B → result S) (e : exn)
    (l : list B) (s : S) :
  (∀ x, f (Raise e) x = Raise e) →
  (∀ s x, x ∈ l → f (Ok s) x = Raise e ∨ ∃ s', f (Ok s) x = Ok s') →
  (∃ x, x ∈ l ∧ ∀ s, f (Ok s) x = Raise e) →
  foldl f (Ok s) l = Raise e.
Proof.
  intros Hraise. revert s.
  induction l as [| x l IH]; intros s Hf (bad & Hin & Hbad); simpl.
  - by apply elem_of_nil in Hin.
  - destruct (Hf s x) as [-> | [s' Hs']]; [left | by apply foldl_Raise |].
    rewrite Hs'. apply IH.
    + intros s'' y Hy. apply Hf. by right.
    + apply elem_of_cons in Hin as [-> | Hin]; [| by exists bad].
      rewrite Hbad in Hs'. done.
Qed.

Section plot_facts.
Context {K : Type}.

Lemma plot_route_Ok (cities : list (K * K)) (route : list nat)
    (city_names : list string) :
  route ≠ [] →
  Forall (λ city, city < length cities) route →
  city_names = [] ∨ Forall (λ city, city < length city_names) route →
  plot_route cities route city_names = ([PlotRoute route], Ok tt).
Proof.
  intros Hne Hcities Hnames. rewrite Forall_forall in Hcities.
  unfold plot_route.
  destruct (foldl_all_Ok (λ acc city,
      let* coords := acc in
      let* c := index cities city in
      Ok (coords ++ [c])) route []) as [coords ->].
  { intros s x Hx. destruct (lookup_lt_is_Some_2 _ _ (Hcities x Hx)) as [c Hc].
    simpl. unfold index. rewrite Hc. by eexists. }
  destruct route as [| first_city route]; [done |].
  destruct (lookup_lt_is_Some_2 cities first_city) as [c Hc]; [apply Hcities; left |].
  unfold lift, index at 1 2. cbn [io_bind lookup list_lookup]. rewrite Hc.
  destruct (foldl_all_Ok (λ acc city_idx,
      let* labels := acc in
      let* c := index cities city_idx in
      let* label :=
        if bool_decide (city_names ≠ [])
        then index city_names city_idx
        else Ok (pretty city_idx) in
      Ok (labels ++ [label])) (first_city :: route) []) as [labels ->]; [| done].
  intros s x Hx. destruct (lookup_lt_is_Some_2 _ _ (Hcities x Hx)) as [cx Hcx].
  simpl. unfold index at 1. rewrite Hcx. simpl. case_bool_decide as Hn.
  - destruct Hnames as [-> | Hnames]; [done |]. rewrite Forall_forall in Hnames.
    destruct (lookup_lt_is_Some_2 _ _ (Hnames x Hx)) as [nm Hnm].
    unfold index. rewrite Hnm. by eexists.
  - by eexists.
Qed.

Lemma plot_route_short_names (cities : list (K * K)) (route : list nat)
    (city_names : list string) :
  Forall (λ city, city < length cities) route →
  city_names ≠ [] →
  (∃ city, city ∈ route ∧ length city_names ≤ city) →
  plot_route cities route city_names = ([], Raise IndexError).
Proof.
  intros Hcities Hne (bad & Hbad & Hshort). rewrite Forall_forall in Hcities.
  unfold plot_route.
  destruct (foldl_all_Ok (λ acc city,
      let* coords := acc in
      let* c := index cities city in
      Ok (coords ++ [c])) route []) as [coords ->].
  { intros s x Hx. destruct (lookup_lt_is_Some_2 _ _ (Hcities x Hx)) as [c Hc].
    simpl. unfold index. rewrite Hc. by eexists. }
  destruct route as [| first_city route]; [by apply elem_of_nil in Hbad |].
  destruct (lookup_lt_is_Some_2 cities first_city) as [c Hc]; [apply Hcities; left |].
  unfold lift, index at 1 2. cbn [io_bind lookup list_lookup]. rewrite Hc.
  rewrite (foldl_some_Raise _ IndexError); [done | done | |].
  - intros s x Hx. destruct (lookup_lt_is_Some_2 _ _ (Hcities x Hx)) as [cx Hcx].
    simpl. unfold index. rewrite Hcx. simpl.
    rewrite bool_decide_eq_true_2 by done.
    destruct (city_names !! x); simpl; [right; by eexists | by left].
  - exists bad. split; [done |]. intros s.
    destruct (lookup_lt_is_Some_2 _ _ (Hcities bad Hbad)) as [cx Hcx].
    simpl. unfold index at 1. rewrite Hcx. simpl.
    rewrite bool_decide_eq_true_2 by done. unfold index.
    by rewrite (lookup_ge_None_2 city_names bad).
Qed.

End plot_facts.

Section construction_facts.
Context {K : Type} `{Number K} {I : Type} `{Individual I}.

Lemma Evolution_init_length (pool_size : Z) (fit : I → K) (n_offsprings : Z)
    (pair_params : PairParams) (mutate_params : MutateParams)
    (init_params : InitParams) (tournament_size : Z) (draws : nat → InitDraw) :
  length (individuals (pool (Evolution_init pool_size fit n_offsprings
            pair_params mutate_params init_params tournament_size draws)))
  = Z.to_nat pool_size.
Proof.
  simpl. by rewrite sort_by_key_length, length_fmap, length_seq.
Qed.

(** An empty pool: the first [get_best_individual] raises. *)
Lemma step_empty_pool (self : Evolution K I) (draws : nat → OffspringDraw I) :
  individuals (pool self) = [] → step self draws = Raise IndexError.
Proof. intros Hnil. unfold step, get_best_individual. by rewrite Hnil. Qed.

(** A pool of one: the loop makes no pass, whatever the tournament size. *)
Lemma step_single (self : Evolution K I) (draws : nat → OffspringDraw I) :
  length (individuals (pool self)) = 1 → step self draws = Ok (self, 0).
Proof.
  intros Hlen. destruct self as [pp mp [fit inds] no ts]. simpl in *.
  destruct inds as [| x [| y inds]]; simpl in Hlen; try lia.
  reflexivity.
Qed.

(** A tournament larger than a pool of two or more: the sampling of the
    first pass raises. *)
Lemma step_oversized_tournament (self : Evolution K I)
    (draws : nat → OffspringDraw I) :
  2 ≤ length (individuals (pool self)) →
  (Z.of_nat (length (individuals (pool self))) < tournament_size self)%Z →
  step self draws = Raise ValueError.
Proof.
  intros Hlen Hk. unfold step, get_best_individual.
  destruct (last (individuals (pool self))) as [best |] eqn:Hlast.
  - cbn [rbind length].
    destruct (length (individuals (pool self)) - 1) as [| todo] eqn:Htodo; [lia |].
    cbn [offspring_loop]. unfold tournament_selection at 1.
    by rewrite random_sample_too_large.
  - apply last_None in Hlast. rewrite Hlast in Hlen. simpl in Hlen. lia.
Qed.

(** [step] changes nothing of the engine but the list of individuals. *)
Lemma step_individuals (self : Evolution K I) (draws : nat → OffspringDraw I)
    (new_individuals : list I) (mutations : nat) :
  rmap (λ r, (individuals (pool r.1), r.2)) (step self draws)
  = Ok (new_individuals, mutations) →
  step self draws
  = Ok (mkEvolution (pair_params self) (mutate_params self)
          (mkPopulation (fitness (pool self)) new_individuals)
          (n_offsprings self) (tournament_size self), mutations).
Proof.
  unfold step. destruct (get_best_individual (pool self)) as [best |]; [| done].
  cbn [rbind]. destruct (offspring_loop _ _ _ _ _ _) as [[l m] |]; [| done].
  simpl. by intros [= -> ->].
Qed.

End construction_facts.

Section tsp_construction_facts.
Context {K : Type} `{NumberOrder K}.

Lemma Evolution_init_routes (pool_size : Z) (fit : TSP → K) (n_offsprings : Z)
    (alpha rate : K) (n_cities : nat) (tournament_size : Z)
    (draws : nat → list nat) :
  (∀ i, permutation_ok n_cities (draws i)) →
  Forall (is_route n_cities)
    (individuals (pool (Evolution_init pool_size fit n_offsprings alpha rate
                          n_cities tournament_size draws))).
Proof.
  intros Hdraws. simpl. rewrite sort_by_key_Permutation.
  apply Forall_fmap, Forall_forall. intros i _. apply Hdraws.
Qed.

(** Construction from valid parameters gives a valid engine. *)
Lemma Evolution_init_valid (pool_size : Z) (fit : TSP → K) (n_offsprings : Z)
    (alpha rate : K) (n_cities : nat) (tournament_size : Z)
    (draws : nat → list nat) :
  (1 ≤ pool_size)%Z → 2 ≤ n_cities →
  (1 ≤ tournament_size ≤ pool_size)%Z →
  (∀ i, permutation_ok n_cities (draws i)) →
  valid_engine n_cities
    (Evolution_init pool_size fit n_offsprings alpha rate n_cities
       tournament_size draws).
Proof.
  intros Hsize Hcities Hk Hdraws.
  pose proof (Evolution_init_length pool_size fit n_offsprings alpha rate
                n_cities tournament_size draws) as Hlen.
  split.
  - intros Hnil. rewrite Hnil in Hlen. simpl in Hlen. lia.
  - apply sort_by_key_Sorted.
  - by apply Evolution_init_routes.
  - done.
  - rewrite Hlen. simpl. lia.
Qed.

(** Routes over fewer than two cities: the cut-point sampling of the
    first pass raises. *)
Lemma step_too_few_cities (n_cities : nat) (self : Evolution K TSP)
    (draws : nat → OffspringDraw TSP) :
  n_cities < 2 →
  2 ≤ length (individuals (pool self)) →
  Forall (is_route n_cities) (individuals (pool self)) →
  (1 ≤ tournament_size self)%Z →
  sample_ok (length (individuals (pool self))) (tournament_size self)
    (parent1_draw (draws 0)) →
  sample_ok (length (individuals (pool self))) (tournament_size self)
    (parent2_draw (draws 0)) →
  step self draws = Raise ValueError.
Proof.
  intros Hn Hlen Hroutes Hk Hd1 Hd2. rewrite Forall_forall in Hroutes.
  assert (Hk' : (1 ≤ tournament_size self
                 ≤ Z.of_nat (length (individuals (pool self))))%Z).
  { apply sample_ok_length in Hd1. lia. }
  destruct (tournament_selection_member _ _ _ Hk' Hd1) as (parent1 & Hp1 & Hin1).
  destruct (tournament_selection_member _ _ _ Hk' Hd2) as (parent2 & Hp2 & Hin2).
  unfold step, get_best_individual.
  destruct (last (individuals (pool self))) as [best |] eqn:Hlast.
  - cbn [rbind length].
    destruct (length (individuals (pool self)) - 1) as [| todo] eqn:Htodo; [lia |].
    cbn [offspring_loop]. rewrite Hp1, Hp2. cbn [rbind].
    assert (Hpair : pair parent1 parent2 (pair_params self)
                      (pair_draw (draws 0)) = Raise ValueError).
    { change (TSP_pair (K:=K) parent1 parent2 (pair_params self)
                (pair_draw (draws 0)) = Raise ValueError).
      unfold TSP_pair, cut_points. rewrite random_sample_too_large; [done |].
      rewrite (is_route_length n_cities) by (by apply Hroutes). lia. }
    by rewrite Hpair.
  - apply last_None in Hlast. rewrite Hlast in Hlen. simpl in Hlen. lia.
Qed.

(** C3 (as the code has it). Nothing is checked at construction, which
    cannot raise, and there is no InvalidInput error: each condition
    surfaces later as a library exception, or not at all.
    - population size < 1: the pool is empty, and [get_best_individual]
      and [step] raise IndexError;
    - tournament size > population size: [step] raises ValueError when the
      population holds two or more, and returns when it holds one;
    - fewer than 2 cities: [step] raises ValueError when the population
      holds two or more;
    - city names: [plot_route], after the last epoch, raises IndexError on
      a non-empty list shorter than the cities and returns on a longer
      one. *)
Theorem invalid_parameters_surface_late
    (pool_size tournament_size n_offsprings : Z) (fit : TSP → K)
    (alpha rate : K) (n_cities : nat) (init : nat → list nat)
    (draws : nat → OffspringDraw TSP) :
  let engine :=
    Evolution_init pool_size fit n_offsprings alpha rate n_cities
      tournament_size init in
  ((pool_size < 1)%Z →
     individuals (pool engine) = []
     ∧ get_best_individual (pool engine) = Raise IndexError
     ∧ step engine draws = Raise IndexError)
  ∧ ((2 ≤ pool_size)%Z → (pool_size < tournament_size)%Z →
     step engine draws = Raise ValueError)
  ∧ (pool_size = 1%Z → step engine draws = Ok (engine, 0))
  ∧ ((2 ≤ pool_size)%Z → n_cities < 2 →
     (1 ≤ tournament_size)%Z →
     (∀ i, permutation_ok n_cities (init i)) →
     sample_ok (Z.to_nat pool_size) tournament_size (parent1_draw (draws 0)) →
     sample_ok (Z.to_nat pool_size) tournament_size (parent2_draw (draws 0)) →
     step engine draws = Raise ValueError)
  ∧ (∀ (cities : list (K * K)) (route : TSP) (city_names : list string),
       is_route (length cities) route → cities ≠ [] →
       (city_names ≠ [] → length city_names < length cities →
        plot_route cities (value route) city_names = ([], Raise IndexError))
       ∧ (length cities ≤ length city_names →
          plot_route cities (value route) city_names
          = ([PlotRoute (value route)], Ok tt))).
Proof.
  intros engine.
  pose proof (Evolution_init_length pool_size fit n_offsprings alpha rate
                n_cities tournament_size init) as Hlen.
  fold engine in Hlen. split_and!.
  - intros Hsize.
    assert (Hnil : individuals (pool engine) = []).
    { apply length_zero_iff_nil. rewrite Hlen. lia. }
    split_and!; [done | by apply get_best_individual_empty
                | by apply step_empty_pool].
  - intros Hsize Hk. apply step_oversized_tournament; rewrite Hlen; simpl; lia.
  - intros ->. apply step_single. by rewrite Hlen.
  - intros Hsize Hn Hk Hinit Hd1 Hd2.
    apply (step_too_few_cities n_cities); rewrite ?Hlen; try done; [lia |].
    by apply Evolution_init_routes.
  - intros cities route city_names Hroute Hne.
    assert (Hrange : Forall (λ city, city < length cities) (value route)).
    { apply Forall_forall. intros city Hcity. rewrite Hroute in Hcity.
      apply elem_of_seq in Hcity. lia. }
    assert (Hlast : length cities - 1 ∈ value route).
    { rewrite Hroute. apply elem_of_seq. destruct cities; [done | simpl; lia]. }
    split.
    + intros Hnames Hshort. apply plot_route_short_names; [done.. |].
      exists (length cities - 1). split; [done | lia].
    + intros Hlong. apply plot_route_Ok.
      * intros Hnil. rewrite Hnil in Hlast. by apply elem_of_nil in Hlast.
      * done.
      * right. eapply Forall_impl; [exact Hrange |]. simpl. intros; lia.
Qed.

End tsp_construction_facts.

(** ** The fitness closure on routes *)

Section score_facts.
Context {K : Type} `{Number K}.

Lemma calculate_distances_entry (norm : K * K → K) (cities : list (K * K))
    (i j : nat) :
  i < length cities → j < length cities →
  ∃ d, entry (calculate_distances norm cities) i j = Ok d.
Proof.
  intros Hi Hj. unfold entry, calculate_distances, index.
  destruct (lookup_lt_is_Some_2 _ _ Hi) as [ci Hci].
  destruct (lookup_lt_is_Some_2 _ _ Hj) as [cj Hcj].
  rewrite list_lookup_imap, Hci. simpl.
  rewrite list_lookup_imap, Hcj. simpl. by eexists.
Qed.

(** On a route over the cities the closure of [tsp_fitness_creator]
    returns, and [score] is what it returns. *)
Lemma score_route (norm : K * K → K) (cities : list (K * K)) (tsp : TSP) :
  is_route (length cities) tsp →
  tsp_fitness_creator (calculate_distances norm cities) (value tsp)
  = Ok (score (calculate_distances norm cities) tsp).
Proof.
  intros Hroute.
  assert (Hrange : ∀ i city, value tsp !! i = Some city → city < length cities).
  { intros i city Hi. apply list_elem_of_lookup_2 in Hi.
    rewrite Hroute in Hi. apply elem_of_seq in Hi. lia. }
  assert (Hfit : ∃ s, tsp_fitness_creator (calculate_distances norm cities)
                        (value tsp) = Ok s).
  { unfold tsp_fitness_creator.
    destruct (foldl_all_Ok (λ acc i,
        let* route_length := acc in
        let* from_city := index (value tsp) i in
        let* to_city := index (value tsp) ((i + 1) `mod` length (value tsp)) in
        let* d := entry (calculate_distances norm cities) from_city to_city in
        Ok (nadd route_length d)) (seq 0 (length (value tsp))) nzero)
      as [s ->]; [| by eexists].
    intros s i Hi. apply elem_of_seq in Hi.
    destruct (lookup_lt_is_Some_2 (value tsp) i) as [a Ha]; [lia |].
    destruct (lookup_lt_is_Some_2 (value tsp) ((i + 1) `mod` length (value tsp)))
      as [b Hb]; [apply Nat.mod_upper_bound; lia |].
    destruct (calculate_distances_entry norm cities a b) as [d Hd];
      [by eapply Hrange.. |].
    simpl. unfold index. rewrite Ha, Hb. simpl. rewrite Hd. by eexists. }
  destruct Hfit as [s Hs]. unfold score. by rewrite Hs.
Qed.

End score_facts.

(** ** Effects of the run *)

Section io_facts.
Context {A B : Type}.

Lemma saved_bind (m : io A) (f : A → io B) :
  saved (io_bind m f)
  = saved m ++ match m.2 with Ok a => saved (f a) | Raise _ => [] end.
Proof.
  destruct m as [done_ [a | e]]; unfold saved; simpl.
  - destruct (f a) as [more r]. simpl. apply omap_app.
  - by rewrite app_nil_r.
Qed.

Lemma result_bind (m : io A) (f : A → io B) :
  (io_bind m f).2 = match m.2 with Ok a => (f a).2 | Raise e => Raise e end.
Proof. destruct m as [done_ [a | e]]; simpl; [by destruct (f a) | done]. Qed.

Lemma saved_bind_nil (m : io A) (f : A → io B) :
  saved m = [] → (∀ a, m.2 = Ok a → saved (f a) = []) →
  saved (io_bind m f) = [].
Proof.
  intros Hm Hf. rewrite saved_bind, Hm. destruct (m.2); [by apply Hf | done].
Qed.

Lemma writes_quiet_bind (paths : list string) (m : io A) (f : A → io B) :
  saved m = [] → (∀ a, m.2 = Ok a → writes_exactly paths (f a)) →
  writes_exactly paths (io_bind m f).
Proof.
  intros Hm Hf. unfold writes_exactly.
  rewrite saved_bind, result_bind, Hm. destruct (m.2) as [a | e]; simpl.
  - by apply Hf.
  - split; [apply prefix_nil | done].
Qed.

End io_facts.

Lemma saved_io_foldl {A B : Type} (f : A → B → io A) (a : A) (l : list B) :
  (∀ a b, saved (f a b) = []) → saved (io_foldl f a l) = [].
Proof.
  intros Hf. revert a. induction l as [| b l IH]; intros a; simpl; [done |].
  apply saved_bind_nil; [apply Hf | intros; apply IH].
Qed.


Lemma writes_savefig_bind {K B : Type} (env : Environment K) (path : string)
    (paths : list string) (f : unit → io B) :
  writes_exactly paths (f tt) →
  writes_exactly (path :: paths) (io_bind (savefig env path) f).
Proof.
  intros [Hpre Hall]. unfold writes_exactly.
  rewrite saved_bind, result_bind. unfold savefig.
  destruct (results_dir_ok env); simpl.
  - split; [by apply prefix_cons | intros a Ha; f_equal; by eapply Hall].
  - split; [apply prefix_nil | done].
Qed.

Lemma saved_print (enabled : bool) : saved (print enabled) = [].
Proof. by destruct enabled. Qed.

Lemma saved_lift {A : Type} (r : result A) : saved (lift r) = [].
Proof. done. Qed.

Lemma saved_plot_route {K : Type} (cities : list (K * K)) (route : list nat)
    (city_names : list string) :
  saved (plot_route cities route city_names) = [].
Proof.
  unfold plot_route.
  repeat (apply saved_bind_nil; [apply saved_lift | intros ? _]). done.
Qed.

Section run_facts.
Context {K : Type} `{Number K}.

Lemma saved_epoch_body (draws : RunDraws) (verbose : bool) (st : RunState)
    (epoch : nat) :
  saved (epoch_body draws verbose st epoch) = [].
Proof.
  unfold epoch_body.
  apply saved_bind_nil; [apply saved_lift | intros [evo mutations] _].
  repeat (apply saved_bind_nil; [apply saved_lift | intros ? _]).
  apply saved_bind_nil; [apply saved_print | done].
Qed.

(** C9 (as the code has it). Whatever its arguments and draws,
    [run_tsp_evolution] writes two files and no other:
    [results/tsp_final_route.png], then
    [results/tsp_length_history.png] - both when it returns, the first
    or none when it raises on the way. *)
Theorem run_writes_two_plots (norm : K * K → K) (env : Environment K)
    (draws : RunDraws) (cities : list (K * K))
    (city_names : option (list string))
    (population_size tournament_size : Z) (mutation_rate : K)
    (n_offsprings n_epochs : Z) (crossover_alpha : K) (verbose : bool) :
  writes_exactly
    ["results/tsp_final_route.png"; "results/tsp_length_history.png"]
    (run_tsp_evolution norm env draws cities city_names population_size
       tournament_size mutation_rate n_offsprings n_epochs crossover_alpha
       verbose).
Proof.
  unfold run_tsp_evolution. cbv zeta.
  repeat (apply writes_quiet_bind; [apply saved_print | intros _ _]).
  apply writes_quiet_bind; [apply saved_lift | intros best_individual _].
  repeat (apply writes_quiet_bind; [apply saved_print | intros _ _]).
  apply writes_quiet_bind;
    [apply saved_io_foldl, saved_epoch_body | intros st _].
  repeat (apply writes_quiet_bind; [apply saved_lift | intros ? _]).
  repeat (apply writes_quiet_bind; [apply saved_print | intros _ _]).
  apply writes_quiet_bind; [by repeat case_match | intros _ _].
  apply writes_quiet_bind; [apply saved_plot_route | intros _ _].
  apply writes_savefig_bind.
  apply writes_quiet_bind; [done | intros _ _].
  apply writes_savefig_bind.
  apply writes_quiet_bind; [apply saved_plot_route | intros _ _].
  split; [done |]. done.
Qed.

End run_facts.

Lemma result_bind_Ok {A B : Type} (m : io A) (f : A → io B) (a : A) :
  m.2 = Ok a → (io_bind m f).2 = (f a).2.
Proof. intros Hm. by rewrite result_bind, Hm. Qed.

Lemma result_bind_Raise {A B : Type} (m : io A) (f : A → io B) (e : exn) :
  m.2 = Raise e → (io_bind m f).2 = Raise e.
Proof. intros Hm. by rewrite result_bind, Hm. Qed.

Lemma print_result (enabled : bool) : (print enabled).2 = Ok tt.
Proof. by destruct enabled. Qed.

Lemma index_from_end_last {A : Type} (l : list A) (x : A) :
  index_from_end (l ++ [x]) 1 = Ok x.
Proof.
  unfold index_from_end, index. rewrite length_app. simpl.
  rewrite bool_decide_eq_true_2 by lia.
  rewrite lookup_app_r by lia.
  by replace (length l + 1 - 1 - length l) with 0 by lia.
Qed.

Lemma index_from_end_singleton {A : Type} (x : A) :
  index_from_end [x] 1 = Ok x.
Proof. apply (index_from_end_last []). Qed.

Section run_zero_epochs.
Context {K : Type} `{Number K}.

Lemma get_best_individual_nonempty {I : Type} (self : Population K I) :
  individuals self ≠ [] →
  ∃ best, get_best_individual self = Ok best ∧ best ∈ individuals self.
Proof.
  intros Hne. unfold get_best_individual.
  destruct (last (individuals self)) as [best |] eqn:Hlast.
  - exists best. split; [done |]. apply last_Some in Hlast as [l' ->].
    apply elem_of_app. right. left.
  - by apply last_None in Hlast.
Qed.

(** With [n_epochs = 0] and [verbose] set, a run on a non-empty
    population ends in the division by [n_epochs] of the summary (or,
    without cities, in the integer division of the improvement). *)
Lemma run_zero_epochs_verbose (norm : K * K → K) (env : Environment K)
    (draws : RunDraws) (cities : list (K * K))
    (city_names : option (list string))
    (population_size tournament_size : Z) (mutation_rate : K)
    (n_offsprings : Z) (crossover_alpha : K) :
  (1 ≤ population_size)%Z →
  (run_tsp_evolution norm env draws cities city_names population_size
     tournament_size mutation_rate n_offsprings 0 crossover_alpha true).2
  = Raise ZeroDivisionError.
Proof.
  intros Hpop. unfold run_tsp_evolution. cbv zeta.
  set (evo := Evolution_init _ _ _ _ _ _ _ _).
  destruct (get_best_individual_nonempty (pool evo)) as (best & Hbest & _).
  { intros Hnil. apply (f_equal length) in Hnil.
    unfold evo in Hnil. rewrite Evolution_init_length in Hnil. simpl in Hnil. lia. }
  rewrite Hbest.
  repeat rewrite (result_bind_Ok (print _) _ tt) by apply print_result.
  rewrite (result_bind_Ok (lift (Ok best)) _ best) by done.
  repeat rewrite (result_bind_Ok (print _) _ tt) by apply print_result.
  change (Z.to_nat 0) with 0. cbn [seq io_foldl].
  rewrite (result_bind_Ok (io_ret _) _ _) by done. cbn [s_best_lengths].
  rewrite index_from_end_singleton.
  rewrite (result_bind_Ok (lift (Ok _)) _ _) by done.
  case_bool_decide as Hcities.
  - by rewrite (result_bind_Raise _ _ ZeroDivisionError).
  - rewrite (result_bind_Ok (lift (Ok _)) _ _) by done.
    repeat rewrite (result_bind_Ok (print _) _ tt) by apply print_result.
    rewrite bool_decide_eq_true_2 by done.
    by rewrite (result_bind_Raise _ _ ZeroDivisionError).
Qed.

(** With [n_epochs = 0] and [verbose] unset the run returns: one entry
    in the history, and the route of the initial best individual. *)
Lemma run_zero_epochs_quiet (norm : K * K → K) (env : Environment K)
    (draws : RunDraws) (cities : list (K * K))
    (population_size tournament_size : Z) (mutation_rate : K)
    (n_offsprings : Z) (crossover_alpha : K) :
  (1 ≤ population_size)%Z →
  cities ≠ [] →
  (∀ i, permutation_ok (length cities) (init_draws draws i)) →
  results_dir_ok env = true →
  ∃ best r,
    get_best_individual
      (pool (Evolution_init population_size
               (score (calculate_distances norm cities)) n_offsprings
               crossover_alpha mutation_rate (length cities) tournament_size
               (init_draws draws))) = Ok best
    ∧ (run_tsp_evolution norm env draws cities None population_size
         tournament_size mutation_rate n_offsprings 0 crossover_alpha false).2
      = Ok r
    ∧ length_history r
      = [nneg (score (calculate_distances norm cities) best)]
    ∧ best_route r = value best.
Proof.
  intros Hpop Hcities Hinit Henv. unfold run_tsp_evolution. cbv zeta.
  set (evo := Evolution_init _ _ _ _ _ _ _ _).
  destruct (get_best_individual_nonempty (pool evo)) as (best & Hbest & Hin).
  { intros Hnil. apply (f_equal length) in Hnil.
    unfold evo in Hnil. rewrite Evolution_init_length in Hnil. simpl in Hnil. lia. }
  assert (Hroute : is_route (length cities) best).
  { unfold evo in Hin. simpl in Hin. rewrite sort_by_key_Permutation in Hin.
    apply list_elem_of_fmap in Hin as (i & -> & _). apply Hinit. }
  assert (Hplot : plot_route cities (value best)
                    ((λ i, pretty i) <$> seq 0 (length cities))
                  = ([PlotRoute (value best)], Ok tt)).
  { assert (Hrange : Forall (λ city, city < length cities) (value best)).
    { apply Forall_forall. intros city Hcity. rewrite Hroute in Hcity.
      apply elem_of_seq in Hcity. lia. }
    apply plot_route_Ok; [| done |].
    - intros Hnil. apply (f_equal length) in Hnil.
      rewrite (Permutation_length Hroute), length_seq in Hnil.
      by destruct cities.
    - right. by rewrite length_fmap, length_seq. }
  exists best. eexists. split; [done |]. rewrite Hbest.
  repeat rewrite (result_bind_Ok (print _) _ tt) by apply print_result.
  rewrite (result_bind_Ok (lift (Ok best)) _ best) by done.
  repeat rewrite (result_bind_Ok (print _) _ tt) by apply print_result.
  change (Z.to_nat 0) with 0. cbn [seq io_foldl].
  rewrite (result_bind_Ok (io_ret _) _ _) by done. cbn [s_best_lengths].
  rewrite index_from_end_singleton.
  rewrite (result_bind_Ok (lift (Ok _)) _ _) by done.
  rewrite bool_decide_eq_false_2 by (by destruct cities).
  rewrite (result_bind_Ok (lift (Ok _)) _ _) by done.
  repeat rewrite (result_bind_Ok (print _) _ tt) by apply print_result.
  rewrite (result_bind_Ok (io_ret tt) _ tt) by done.
  cbn [s_best_route]. rewrite Hplot.
  rewrite (result_bind_Ok _ _ tt) by done.
  unfold savefig. rewrite Henv.
  rewrite (result_bind_Ok (emit _) _ tt) by done.
  rewrite (result_bind_Ok (emit _) _ tt) by done.
  rewrite (result_bind_Ok (emit _) _ tt) by done.
  rewrite (result_bind_Ok _ _ tt) by done.
  cbn [io_ret snd]. split; [reflexivity |]. done.
Qed.

End run_zero_epochs.

(** ** A run on valid input returns *)

Lemma index_from_end_Ok {A : Type} (l : list A) (k : nat) :
  1 ≤ k ≤ length l → ∃ x, index_from_end l k = Ok x.
Proof.
  intros Hk. unfold index_from_end, index.
  rewrite bool_decide_eq_true_2 by lia.
  destruct (lookup_lt_is_Some_2 l (length l - k)) as [x ->]; [lia |].
  by exists x.
Qed.

Section run_returns.
Context {K : Type} `{NumberOrder K}.

Lemma epoch_body_Ok (n_cities pool_size : nat) (k : Z) (rate : K)
    (entries : nat) (draws : RunDraws) (verbose : bool) (st : RunState)
    (epoch : nat) :
  1 ≤ pool_size → 1 ≤ entries →
  (1 ≤ k ≤ Z.of_nat pool_size)%Z →
  (∀ pass, offspring_draw_ok n_cities pool_size k rate
             (epoch_draws draws epoch pass)) →
  run_invariant n_cities pool_size k rate entries st →
  ∃ st',
    (epoch_body draws verbose st epoch).2 = Ok st'
    ∧ run_invariant n_cities pool_size k rate (S entries) st'.
Proof.
  intros Hsize Hentries Hk Hd (Hlen & Hroutes & Hts & Hrate & Hhist & Hbest).
  destruct (step_routes n_cities (s_evo st) (epoch_draws draws epoch))
    as (mc & best & offspring & Hstep & Hlast & Hofflen & Hnew).
  { intros Hnil. rewrite Hnil in Hlen. simpl in Hlen. lia. }
  { done. }
  { rewrite Hts, Hlen. done. }
  { intros pass _. rewrite Hlen, Hts.
    change (mutate_params (s_evo st)) with (mutate_params (s_evo st) : K).
    rewrite Hrate. apply Hd. }
  unfold epoch_body. rewrite Hstep.
  rewrite (result_bind_Ok (lift (Ok _)) _ _) by done. cbn [pool].
  destruct (get_best_individual_nonempty
              (mkPopulation (fitness (pool (s_evo st))) (best :: offspring)))
    as (current_best & Hcurrent & Hin); [done |].
  rewrite Hcurrent.
  rewrite (result_bind_Ok (lift (Ok _)) _ _) by done.
  destruct (index_from_end_Ok
              (s_best_lengths st ++
                 [nneg (fitness (mkPopulation (fitness (pool (s_evo st)))
                                   (best :: offspring)) current_best)]) 2)
    as [previous Hprevious].
  { rewrite length_app. simpl. lia. }
  rewrite Hprevious.
  rewrite (result_bind_Ok (lift (Ok _)) _ _) by done.
  rewrite (result_bind_Ok (print _) _ tt) by apply print_result.
  eexists. split; [reflexivity |].
  assert (Hcur : is_route n_cities current_best).
  { rewrite Forall_forall in Hnew. by apply Hnew. }
  destruct (nltb _ previous); unfold run_invariant; simpl;
    rewrite length_app; simpl; split_and!; try done; lia.
Qed.

Lemma epochs_Ok (n_cities pool_size : nat) (k : Z) (rate : K)
    (draws : RunDraws) (verbose : bool) (count first entries : nat)
    (st : RunState) :
  1 ≤ pool_size → 1 ≤ entries →
  (1 ≤ k ≤ Z.of_nat pool_size)%Z →
  (∀ epoch pass, offspring_draw_ok n_cities pool_size k rate
                   (epoch_draws draws epoch pass)) →
  run_invariant n_cities pool_size k rate entries st →
  ∃ st',
    (io_foldl (epoch_body draws verbose) st (seq first count)).2 = Ok st'
    ∧ run_invariant n_cities pool_size k rate (entries + count) st'.
Proof.
  intros Hsize Hentries Hk Hd. revert first entries st Hentries.
  induction count as [| count IH]; intros first entries st Hentries Hinv.
  - exists st. by rewrite Nat.add_0_r.
  - destruct (epoch_body_Ok n_cities pool_size k rate entries draws verbose
                st first) as (st1 & Hbody & Hinv1); try done.
    destruct (IH (S first) (S entries) st1) as (st' & Hrest & Hinv');
      [lia | done |].
    exists st'. cbn [seq io_foldl]. rewrite (result_bind_Ok _ _ st1) by done.
    split; [done |]. by replace (entries + S count) with (S entries + count) by lia.
Qed.

(** On valid parameters, with draws that meet their contracts and a
    writable results directory, the run returns unless it is verbose
    with [n_epochs = 0]; the history has one entry per epoch after the
    initial one and the best route is a route. *)
Lemma run_returns (norm : K * K → K) (env : Environment K)
    (draws : RunDraws) (cities : list (K * K))
    (population_size tournament_size : Z) (mutation_rate : K)
    (n_offsprings n_epochs : Z) (crossover_alpha : K) (verbose : bool) :
  (1 ≤ population_size)%Z → 2 ≤ length cities →
  (1 ≤ tournament_size ≤ population_size)%Z →
  run_draws_ok (length cities) population_size tournament_size mutation_rate
    draws →
  results_dir_ok env = true →
  verbose = false ∨ n_epochs ≠ 0%Z →
  ∃ r,
    (run_tsp_evolution norm env draws cities None population_size
       tournament_size mutation_rate n_offsprings n_epochs crossover_alpha
       verbose).2 = Ok r
    ∧ length (length_history r) = S (Z.to_nat n_epochs)
    ∧ best_route r ≡ₚ seq 0 (length cities).
Proof.
  intros Hpop Hcities Hk [Hinit Hd] Henv Hverbose.
  unfold run_tsp_evolution. cbv zeta.
  set (evo := Evolution_init _ _ _ _ _ _ _ _).
  assert (Hlen : length (individuals (pool evo)) = Z.to_nat population_size).
  { unfold evo. apply Evolution_init_length. }
  assert (Hroutes : Forall (is_route (length cities)) (individuals (pool evo))).
  { unfold evo. by apply Evolution_init_routes. }
  destruct (get_best_individual_nonempty (pool evo)) as (best & Hbest & Hin).
  { intros Hnil. rewrite Hnil in Hlen. simpl in Hlen. lia. }
  assert (Hroute : is_route (length cities) best).
  { rewrite Forall_forall in Hroutes. by apply Hroutes. }
  rewrite Hbest.
  repeat rewrite (result_bind_Ok (print _) _ tt) by apply print_result.
  rewrite (result_bind_Ok (lift (Ok best)) _ best) by done.
  repeat rewrite (result_bind_Ok (print _) _ tt) by apply print_result.
  destruct (epochs_Ok (length cities) (Z.to_nat population_size)
              tournament_size mutation_rate draws verbose
              (Z.to_nat n_epochs) 0 1
              (mkRunState evo (value best)
                 [nneg (fitness (pool evo) best)] 0 0 0))
    as (st & Hloop & Hinv); [lia | lia | lia | done | |].
  { unfold run_invariant. simpl. split_and!; try done. }
  destruct Hinv as (_ & _ & _ & _ & Hhist & Hbr).
  rewrite (result_bind_Ok _ _ st) by done.
  destruct (index_from_end_Ok (s_best_lengths st) 1) as [final Hfinal]; [lia |].
  rewrite Hfinal.
  rewrite (result_bind_Ok (lift (Ok _)) _ _) by done.
  rewrite bool_decide_eq_false_2 by lia.
  rewrite (result_bind_Ok (lift (Ok _)) _ _) by done.
  repeat rewrite (result_bind_Ok (print _) _ tt) by apply print_result.
  assert (Hsummary :
    (if verbose
     then (if bool_decide (n_epochs = 0%Z)
           then lift (Raise ZeroDivisionError) else emit Print)
     else io_ret tt).2 = Ok tt).
  { destruct verbose; [| done]. destruct Hverbose as [? | Hne]; [done |].
    by rewrite bool_decide_eq_false_2. }
  rewrite (result_bind_Ok _ _ tt) by exact Hsummary.
  assert (Hplot : plot_route cities (s_best_route st)
                    ((λ i, pretty i) <$> seq 0 (length cities))
                  = ([PlotRoute (s_best_route st)], Ok tt)).
  { assert (Hrange : Forall (λ city, city < length cities) (s_best_route st)).
    { apply Forall_forall. intros city Hcity. rewrite Hbr in Hcity.
      apply elem_of_seq in Hcity. lia. }
    apply plot_route_Ok; [| done |].
    - intros Hnil. apply (f_equal length) in Hnil.
      rewrite (Permutation_length Hbr), length_seq in Hnil. simpl in Hnil. lia.
    - right. by rewrite length_fmap, length_seq. }
  rewrite Hplot.
  rewrite (result_bind_Ok _ _ tt) by done.
  unfold savefig. rewrite Henv.
  rewrite (result_bind_Ok (emit _) _ tt) by done.
  rewrite (result_bind_Ok (emit _) _ tt) by done.
  rewrite (result_bind_Ok (emit _) _ tt) by done.
  rewrite (result_bind_Ok _ _ tt) by done.
  eexists. split; [reflexivity |]. simpl. split; [lia | done].
Qed.

End run_returns.

(** ** The worked instance *)

Lemma axis_init_draws_ok (i : nat) : permutation_ok 4 (axis_init_draws i).
Proof.
  unfold permutation_ok.
  destruct i as [| i]; apply (bool_decide_unpack _); vm_compute; exact I.
Qed.

Lemma axis_engine_valid : valid_engine 4 (axis_engine 2 1).
Proof.
  apply Evolution_init_valid; [lia | lia | lia | apply axis_init_draws_ok].
Qed.

Lemma axis_step_draws_ok :
  step_draws_ok 4 (axis_engine 2 1) (λ _, axis_offspring_draw).
Proof.
  intros pass _. unfold axis_engine. rewrite Evolution_init_length.
  repeat split; try (apply (bool_decide_unpack _); vm_compute; exact I).
  vm_compute. discriminate.
Qed.

Lemma axis_step :
  step (axis_engine 2 1) (λ _, axis_offspring_draw)
  = Ok (axis_engine_after_step, 0).
Proof. apply (step_individuals (axis_engine 2 1)). vm_compute. reflexivity. Qed.

(** C1 (where the code departs from it). The population
    [[0-2-1-3; 0-1-2-3]] is as construction sorted it and the draws meet
    their contracts; after one [step] the pool is
    [[0-1-2-3; 0-2-1-3]], no longer sorted, and [get_best_individual]
    returns 0-2-1-3 (fitness -8) although 0-1-2-3 (fitness -6) is in the
    pool. The run with [n_epochs = 1] accordingly reports the length 8
    after the initial 6. *)
Theorem best_individual_after_step_not_fittest :
  sorted_by_fitness (pool (axis_engine 2 1))
  ∧ step_draws_ok 4 (axis_engine 2 1) (λ _, axis_offspring_draw)
  ∧ step (axis_engine 2 1) (λ _, axis_offspring_draw)
    = Ok (axis_engine_after_step, 0)
  ∧ get_best_individual (pool axis_engine_after_step)
    = Ok (mkTSP [0; 2; 1; 3])
  ∧ mkTSP [0; 1; 2; 3] ∈ individuals (pool axis_engine_after_step)
  ∧ lt_ (fitness (pool axis_engine_after_step) (mkTSP [0; 2; 1; 3]))
        (fitness (pool axis_engine_after_step) (mkTSP [0; 1; 2; 3]))
  ∧ ¬ sorted_by_fitness (pool axis_engine_after_step)
  ∧ ∃ r, (axis_run 2 1 1 false).2 = Ok r
         ∧ length_history r = [6%Q; 8%Q]
         ∧ best_length r = 8%Q
         ∧ best_route r = [0; 1; 2; 3].
Proof.
  split; [apply (valid_sorted _ _ axis_engine_valid) |].
  split; [apply axis_step_draws_ok |].
  split; [apply axis_step |].
  split; [reflexivity |].
  split; [left |].
  split; [vm_compute; reflexivity |].
  split.
  - intros Hsorted. apply Sorted_inv in Hsorted as [_ Hhd].
    apply HdRel_inv in Hhd. apply Hhd. vm_compute. reflexivity.
  - eexists. split; [vm_compute; reflexivity |]. done.
Qed.

(** X22 at the worked instance: the first step after construction. *)
Lemma step_elitism_witness :
  valid_engine 4 (axis_engine 2 1)
  ∧ step_draws_ok 4 (axis_engine 2 1) (λ _, axis_offspring_draw)
  ∧ ∃ self' mutations best top,
      step (axis_engine 2 1) (λ _, axis_offspring_draw) = Ok (self', mutations)
      ∧ get_best_individual (pool (axis_engine 2 1)) = Ok best
      ∧ (∀ x, x ∈ individuals (pool (axis_engine 2 1)) →
              le_ (fitness (pool (axis_engine 2 1)) x)
                  (fitness (pool (axis_engine 2 1)) best))
      ∧ individuals (pool self') !! 0 = Some best
      ∧ top ∈ individuals (pool self')
      ∧ (∀ y, y ∈ individuals (pool self') →
              le_ (fitness (pool self') y) (fitness (pool self') top))
      ∧ le_ (fitness (pool (axis_engine 2 1)) best) (fitness (pool self') top)
      ∧ (∀ x, x ∈ individuals (pool (axis_engine 2 1)) →
              le_ (fitness (pool (axis_engine 2 1)) x)
                  (fitness (pool self') top)).
Proof.
  split; [exact axis_engine_valid |]. split; [exact axis_step_draws_ok |].
  exact (step_elitism 4 (axis_engine 2 1) (λ _, axis_offspring_draw)
           axis_engine_valid axis_step_draws_ok).
Defined.

(** C3: the claim fails. The engine with population size 2 and
    tournament size 5 is constructed; the error is the ValueError of the
    sampling, raised inside [step]. With population size 1 nothing is
    raised at all. *)
Lemma oversized_tournament_raises_in_step :
  step (axis_engine 2 5) (λ _, axis_offspring_draw) = Raise ValueError
  ∧ length (individuals (pool (axis_engine 2 5))) = 2
  ∧ (axis_run 2 5 1 false).2 = Raise ValueError
  ∧ step (axis_engine 1 5) (λ _, axis_offspring_draw)
    = Ok (axis_engine 1 5, 0).
Proof.
  split_and!.
  - apply step_oversized_tournament; unfold axis_engine;
      rewrite Evolution_init_length; simpl; lia.
  - unfold axis_engine. by rewrite Evolution_init_length.
  - vm_compute. reflexivity.
  - apply step_single. unfold axis_engine. by rewrite Evolution_init_length.
Qed.

(** C8 (where the code departs from it). With [n_epochs = 0] and
    [verbose] at its default the run raises ZeroDivisionError in the
    summary; with [verbose] unset the same input returns what the claim
    describes. *)
Theorem n_epochs_zero_verbose_raises :
  (axis_run 2 1 0 true).2 = Raise ZeroDivisionError
  ∧ ∃ r, (axis_run 2 1 0 false).2 = Ok r
         ∧ length_history r = [6%Q]
         ∧ best_route r = [0; 1; 2; 3]
         ∧ get_best_individual (pool (axis_engine 2 1))
           = Ok (mkTSP [0; 1; 2; 3]).
Proof.
  split; [unfold axis_run; apply run_zero_epochs_verbose; lia |].
  eexists. split; [vm_compute; reflexivity |].
  split_and!; [done | done | vm_compute; reflexivity].
Qed.

(** C9: the claim fails. A run with [verbose] unset writes two files. *)
Lemma run_writes_files :
  saved (axis_run 2 1 1 false)
  = ["results/tsp_final_route.png"; "results/tsp_length_history.png"]
  ∧ SaveFig "results/tsp_final_route.png" ∈ (axis_run 2 1 1 false).1
  ∧ ∃ r, (axis_run 2 1 1 false).2 = Ok r.
Proof.
  split; [vm_compute; reflexivity |].
  split; [apply (bool_decide_unpack _); vm_compute; exact I |].
  eexists. vm_compute. reflexivity.
Qed.

(** C10, on the draw [[3; 1]] from [range(4)]. *)
Lemma cut_points_never_reach_size_witness :
  sample_ok 4 2 [3; 1]
  ∧ ∃ start end_,
      cut_points 4 [3; 1] = Ok (start, end_)
      ∧ 0 ≤ start ∧ start < end_ ∧ end_ ≤ 4 - 1 ∧ end_ ≠ 4.
Proof.
  assert (Hs : sample_ok 4 2 [3; 1])
    by (apply (bool_decide_unpack _); vm_compute; exact I).
  split; [exact Hs |]. exact (cut_points_never_reach_size 4 [3; 1] Hs).
Defined.

(** C6, on the tour 0-1-2-3 with a coin of 0 under the rate 1/100 and
    the positions 3 and 1. *)
Lemma mutate_swaps_or_keeps_witness :
  (nltb (coin (mkMutateDraw 0%Q [3; 1])) (1 # 100)%Q = true →
   sample_ok (length (value (mkTSP [0; 1; 2; 3]))) 2
     (swap_draw (mkMutateDraw 0%Q [3; 1])))
  ∧ ∃ self' mutated,
      TSP_mutate (mkTSP [0; 1; 2; 3]) (1 # 100)%Q (mkMutateDraw 0%Q [3; 1])
      = Ok (self', mutated)
      ∧ mutated = nltb (coin (mkMutateDraw 0%Q [3; 1])) (1 # 100)%Q
      ∧ value self' ≡ₚ value (mkTSP [0; 1; 2; 3])
      ∧ (if mutated
         then ∃ i j vi vj,
                swap_draw (mkMutateDraw 0%Q [3; 1]) = [i; j] ∧ i ≠ j
                ∧ value (mkTSP [0; 1; 2; 3]) !! i = Some vi
                ∧ value (mkTSP [0; 1; 2; 3]) !! j = Some vj
                ∧ value self' !! i = Some vj ∧ value self' !! j = Some vi
                ∧ ∀ k, k ≠ i → k ≠ j →
                       value self' !! k = value (mkTSP [0; 1; 2; 3]) !! k
         else self' = mkTSP [0; 1; 2; 3]).
Proof.
  assert (Hd : nltb (coin (mkMutateDraw 0%Q [3; 1])) (1 # 100)%Q = true →
               sample_ok (length (value (mkTSP [0; 1; 2; 3]))) 2
                 (swap_draw (mkMutateDraw 0%Q [3; 1])))
    by (intros _; apply (bool_decide_unpack _); vm_compute; exact I).
  split; [exact Hd |].
  exact (mutate_swaps_or_keeps (mkTSP [0; 1; 2; 3]) (1 # 100)%Q
           (mkMutateDraw 0%Q [3; 1]) Hd).
Defined.

(** C4, on the parents 0-1-2-3 and 3-2-1-0 with the cut points drawn as
    2 and 0. *)
Lemma pair_yields_permutation_witness :
  NoDup (value (mkTSP [0; 1; 2; 3]))
  ∧ value (mkTSP [3; 2; 1; 0]) ≡ₚ value (mkTSP [0; 1; 2; 3])
  ∧ sample_ok (length (value (mkTSP [0; 1; 2; 3]))) 2 [2; 0]
  ∧ ∃ start end_ child,
      cut_points (length (value (mkTSP [0; 1; 2; 3]))) [2; 0]
      = Ok (start, end_)
      ∧ TSP_pair (mkTSP [0; 1; 2; 3]) (mkTSP [3; 2; 1; 0]) (1 # 2)%Q [2; 0]
        = Ok child
      ∧ value child ≡ₚ value (mkTSP [0; 1; 2; 3])
      ∧ NoDup (value child)
      ∧ length (value child) = length (value (mkTSP [0; 1; 2; 3]))
      ∧ take (end_ - start) (drop start (value child))
        = take (end_ - start) (drop start (value (mkTSP [0; 1; 2; 3])))
      ∧ take start (value child) ++ drop end_ (value child)
        = filter (λ city, city ∉ take (end_ - start)
                                   (drop start (value (mkTSP [0; 1; 2; 3]))))
            (value (mkTSP [3; 2; 1; 0])).
Proof.
  assert (Hnd : NoDup (value (mkTSP [0; 1; 2; 3])))
    by (apply (bool_decide_unpack _); vm_compute; exact I).
  assert (Hperm : value (mkTSP [3; 2; 1; 0]) ≡ₚ value (mkTSP [0; 1; 2; 3]))
    by (apply (bool_decide_unpack _); vm_compute; exact I).
  assert (Hs : sample_ok (length (value (mkTSP [0; 1; 2; 3]))) 2 [2; 0])
    by (apply (bool_decide_unpack _); vm_compute; exact I).
  split; [exact Hnd |]. split; [exact Hperm |]. split; [exact Hs |].
  exact (pair_yields_permutation (mkTSP [0; 1; 2; 3]) (mkTSP [3; 2; 1; 0])
           (1 # 2)%Q [2; 0] Hnd Hperm Hs).
Defined.

(** C5, on the pool of three [[0-2-1-3; 0-2-1-3; 0-1-2-3]] with the
    contestants drawn at indices 1 and 0, which tie. *)
Lemma tournament_selection_first_fittest_witness :
  (1 ≤ 2 ≤ Z.of_nat (length (individuals (pool (axis_engine 3 2)))))%Z
  ∧ sample_ok (length (individuals (pool (axis_engine 3 2)))) 2 [1; 0]
  ∧ ∃ pos idx winner,
      tournament_selection (pool (axis_engine 3 2)) 2 [1; 0] = Ok winner
      ∧ Z.of_nat (length [1; 0]) = 2%Z ∧ NoDup [1; 0]
      ∧ [1; 0] !! pos = Some idx
      ∧ individuals (pool (axis_engine 3 2)) !! idx = Some winner
      ∧ (∀ pos' idx' x,
           [1; 0] !! pos' = Some idx' →
           individuals (pool (axis_engine 3 2)) !! idx' = Some x →
           le_ (fitness (pool (axis_engine 3 2)) x)
               (fitness (pool (axis_engine 3 2)) winner))
      ∧ (∀ pos' idx' x,
           pos' < pos →
           [1; 0] !! pos' = Some idx' →
           individuals (pool (axis_engine 3 2)) !! idx' = Some x →
           lt_ (fitness (pool (axis_engine 3 2)) x)
               (fitness (pool (axis_engine 3 2)) winner)).
Proof.
  assert (Hlen : length (individuals (pool (axis_engine 3 2))) = 3)
    by (unfold axis_engine; by rewrite Evolution_init_length).
  assert (Hk : (1 ≤ 2 ≤ Z.of_nat (length (individuals (pool (axis_engine 3 2)))))%Z)
    by (rewrite Hlen; lia).
  assert (Hs : sample_ok (length (individuals (pool (axis_engine 3 2)))) 2 [1; 0])
    by (rewrite Hlen; apply (bool_decide_unpack _); vm_compute; exact I).
  split; [exact Hk |]. split; [exact Hs |].
  exact (tournament_selection_first_fittest (pool (axis_engine 3 2)) 2 [1; 0]
           Hk Hs).
Defined.

(** C3 (as the code has it), on engines of 0, 1 and 2 individuals, on one
    over a single city, and on name lists of 2 and of 5 names for the
    four cities. *)
Lemma invalid_parameters_surface_late_witness :
  (individuals (pool (axis_engine 0 1)) = []
   ∧ get_best_individual (pool (axis_engine 0 1)) = Raise IndexError
   ∧ step (axis_engine 0 1) (λ _, axis_offspring_draw) = Raise IndexError)
  ∧ step (axis_engine 2 5) (λ _, axis_offspring_draw) = Raise ValueError
  ∧ step (axis_engine 1 5) (λ _, axis_offspring_draw)
    = Ok (axis_engine 1 5, 0)
  ∧ step (Evolution_init 2 (score axis_distances) 30 (1 # 2)%Q (1 # 100)%Q
            1 1 (λ _, [0])) (λ _, axis_offspring_draw)
    = Raise ValueError
  ∧ plot_route axis_cities (value (mkTSP [0; 1; 2; 3])) ["a"; "b"]
    = ([], Raise IndexError)
  ∧ plot_route axis_cities (value (mkTSP [0; 1; 2; 3]))
      ["a"; "b"; "c"; "d"; "e"]
    = ([PlotRoute (value (mkTSP [0; 1; 2; 3]))], Ok tt).
Proof.
  assert (Hroute : is_route (length axis_cities) (mkTSP [0; 1; 2; 3]))
    by (unfold is_route; apply (bool_decide_unpack _); vm_compute; exact I).
  assert (Hcities : axis_cities ≠ []) by discriminate.
  pose proof (invalid_parameters_surface_late 0 1 30 (score axis_distances)
                (1 # 2)%Q (1 # 100)%Q 4 axis_init_draws
                (λ _, axis_offspring_draw)) as (Hempty & _).
  pose proof (invalid_parameters_surface_late 2 5 30 (score axis_distances)
                (1 # 2)%Q (1 # 100)%Q 4 axis_init_draws
                (λ _, axis_offspring_draw)) as (_ & Hover & _).
  pose proof (invalid_parameters_surface_late 1 5 30 (score axis_distances)
                (1 # 2)%Q (1 # 100)%Q 4 axis_init_draws
                (λ _, axis_offspring_draw)) as (_ & _ & Hone & _).
  pose proof (invalid_parameters_surface_late 2 1 30 (score axis_distances)
                (1 # 2)%Q (1 # 100)%Q 1 (λ _, [0])
                (λ _, axis_offspring_draw)) as (_ & _ & _ & Hfew & Hnames).
  destruct (Hnames axis_cities (mkTSP [0; 1; 2; 3]) ["a"; "b"] Hroute Hcities)
    as [Hshort _].
  destruct (Hnames axis_cities (mkTSP [0; 1; 2; 3]) ["a"; "b"; "c"; "d"; "e"]
              Hroute Hcities) as [_ Hlong].
  split; [apply Hempty; lia |].
  split; [apply Hover; lia |].
  split; [apply Hone; reflexivity |].
  split.
  { apply Hfew; try lia.
    - intros i. unfold permutation_ok. apply (bool_decide_unpack _).
      vm_compute. exact I.
    - apply (bool_decide_unpack _). vm_compute. exact I.
    - apply (bool_decide_unpack _). vm_compute. exact I. }
  split; [apply Hshort; [discriminate | simpl; lia] |].
  apply Hlong. simpl. lia.
Defined.

(** * Part III: further properties of the code *)

(** ** The distance matrix and the fitness closure ([metrics.py]) *)

Section metrics_more.
Context {K : Type} `{Number K}.

Lemma entry_lookup (norm : K * K → K) (cities : list (K * K)) (i j : nat) :
  entry (calculate_distances norm cities) i j
  = match cities !! i, cities !! j with
    | Some ci, Some cj =>
        Ok (if bool_decide (i = j) then nzero
            else norm (nsub ci.1 cj.1, nsub ci.2 cj.2))
    | _, _ => Raise IndexError
    end.
Proof.
  unfold entry, calculate_distances, index.
  rewrite list_lookup_imap. destruct (cities !! i) as [ci |]; [| done]. simpl.
  rewrite list_lookup_imap. destruct (cities !! j) as [cj |]; [| done]. simpl.
  by repeat case_bool_decide.
Qed.

(** X1. [calculate_distances(cities)[i, j]]: the matrix is square over
    the cities, zero on the diagonal and the norm of the coordinate
    difference elsewhere; an index at or beyond [len(cities)] raises
    IndexError. *)
Theorem calculate_distances_lookup (norm : K * K → K) (cities : list (K * K))
    (i j : nat) :
  entry (calculate_distances norm cities) i j
  = match cities !! i, cities !! j with
    | Some ci, Some cj =>
        Ok (if bool_decide (i = j) then nzero
            else norm (nsub ci.1 cj.1, nsub ci.2 cj.2))
    | _, _ => Raise IndexError
    end.
Proof. apply entry_lookup. Qed.

Lemma fitness_out_of_range (norm : K * K → K) (cities : list (K * K))
    (route : list nat) (city : nat) :
  city ∈ route → length cities ≤ city →
  tsp_fitness_creator (calculate_distances norm cities) route
  = Raise IndexError.
Proof.
  intros Hin Hcity. unfold tsp_fitness_creator.
  apply list_elem_of_lookup_1 in Hin as [i Hi].
  pose proof (lookup_lt_Some _ _ _ Hi) as Hilt.
  assert (Hstep : ∀ s x, x ∈ seq 0 (length route) →
    (let* route_length := Ok s in
     let* from_city := index route x in
     let* to_city := index route ((x + 1) `mod` length route) in
     let* d := entry (calculate_distances norm cities) from_city to_city in
     Ok (nadd route_length d)) = Raise IndexError
    ∨ ∃ s', (let* route_length := Ok s in
     let* from_city := index route x in
     let* to_city := index route ((x + 1) `mod` length route) in
     let* d := entry (calculate_distances norm cities) from_city to_city in
     Ok (nadd route_length d)) = Ok s').
  { intros s x Hx. apply elem_of_seq in Hx.
    destruct (lookup_lt_is_Some_2 route x) as [a Ha]; [lia |].
    destruct (lookup_lt_is_Some_2 route ((x + 1) `mod` length route))
      as [b Hb]; [apply Nat.mod_upper_bound; lia |].
    simpl. unfold index. rewrite Ha, Hb. simpl. rewrite !entry_lookup.
    destruct (cities !! a), (cities !! b); simpl;
      first [by left | right; by eexists]. }
  rewrite (foldl_some_Raise _ IndexError); [done | done | exact Hstep |].
  exists i. split; [apply elem_of_seq; lia |]. intros s.
  destruct (lookup_lt_is_Some_2 route ((i + 1) `mod` length route))
    as [b Hb]; [apply Nat.mod_upper_bound; lia |].
  simpl. unfold index at 1 2. rewrite Hi, Hb. simpl. rewrite entry_lookup.
  by rewrite (lookup_ge_None_2 cities city).
Qed.

Lemma fitness_in_range (norm : K * K → K) (cities : list (K * K))
    (route : list nat) :
  Forall (λ city, city < length cities) route →
  ∃ s, tsp_fitness_creator (calculate_distances norm cities) route = Ok s.
Proof.
  intros Hrange. rewrite Forall_forall in Hrange. unfold tsp_fitness_creator.
  destruct (foldl_all_Ok (λ acc i,
      let* route_length := acc in
      let* from_city := index route i in
      let* to_city := index route ((i + 1) `mod` length route) in
      let* d := entry (calculate_distances norm cities) from_city to_city in
      Ok (nadd route_length d)) (seq 0 (length route)) nzero)
    as [s ->]; [| by eexists].
  intros s i Hi. apply elem_of_seq in Hi.
  destruct (lookup_lt_is_Some_2 route i) as [a Ha]; [lia |].
  destruct (lookup_lt_is_Some_2 route ((i + 1) `mod` length route))
    as [b Hb]; [apply Nat.mod_upper_bound; lia |].
  destruct (calculate_distances_entry norm cities a b) as [d Hd].
  { apply Hrange. by eapply list_elem_of_lookup_2. }
  { apply Hrange. by eapply list_elem_of_lookup_2. }
  simpl. unfold index. rewrite Ha, Hb. simpl. rewrite Hd. by eexists.
Qed.

(** X2. On the matrix of [calculate_distances(cities)] and a route of
    non-negative city indices, the fitness closure returns a score if
    every city of the route is below [len(cities)], and raises
    IndexError if one is not. *)
Theorem fitness_returns_iff_in_range (norm : K * K → K)
    (cities : list (K * K)) (route : list nat) :
  if decide (Forall (λ city, city < length cities) route)
  then ∃ s, tsp_fitness_creator (calculate_distances norm cities) route = Ok s
  else tsp_fitness_creator (calculate_distances norm cities) route
       = Raise IndexError.
Proof.
  case_decide as Hrange; [by apply fitness_in_range |].
  apply not_Forall_Exists in Hrange; [| apply _].
  apply Exists_exists in Hrange as (city & Hin & Hcity).
  simpl in Hcity.
  apply (fitness_out_of_range norm cities route city); [done | lia].
Qed.

End metrics_more.

(** ** The population ([base.py]) *)

Section population_more.
Context {K : Type} `{NumberOrder K} {I : Type} `{Individual I}.

(** X3. [Population(size, ...)] holds exactly the individuals it
    initialised, [max(size, 0)] of them, in ascending order of
    fitness. *)
Theorem Population_init_sorted_permutation (size : Z) (fit : I → K)
    (init_params : InitParams) (draws : nat → InitDraw) :
  sorted_by_fitness (Population_init size fit init_params draws)
  ∧ length (individuals (Population_init size fit init_params draws))
    = Z.to_nat size
  ∧ individuals (Population_init size fit init_params draws)
    ≡ₚ (λ i, _random_init init_params (draws i)) <$> seq 0 (Z.to_nat size).
Proof.
  split_and!.
  - apply sort_by_key_Sorted.
  - simpl. by rewrite sort_by_key_length, length_fmap, length_seq.
  - apply sort_by_key_Permutation.
Qed.

Lemma replace_split (self : Population K I) (new_individuals : list I) :
  individuals self ≠ [] →
  ∃ dropped,
    sort_by_key (fitness self) (individuals self ++ new_individuals)
    = dropped ++ individuals (replace self new_individuals)
    ∧ length dropped = length new_individuals.
Proof.
  intros Hne. unfold replace. cbn [individuals fitness].
  rewrite bool_decide_eq_false_2
    by (intros Hz; by apply length_zero_iff_nil in Hz).
  set (merged := sort_by_key _ _).
  exists (take (length merged - length (individuals self)) merged).
  split; [by rewrite take_drop |].
  rewrite length_take. unfold merged.
  rewrite sort_by_key_length, length_app. lia.
Qed.

(** X4. [replace] on a non-empty population keeps its size and its
    order, and drops as many individuals as it was given: survivors and
    dropped together are the old and the new individuals, and no dropped
    individual is fitter than a survivor. *)
Theorem replace_keeps_the_fittest (self : Population K I)
    (new_individuals : list I) :
  individuals self ≠ [] →
  sorted_by_fitness (replace self new_individuals)
  ∧ length (individuals (replace self new_individuals))
    = length (individuals self)
  ∧ ∃ dropped,
      length dropped = length new_individuals
      ∧ dropped ++ individuals (replace self new_individuals)
        ≡ₚ individuals self ++ new_individuals
      ∧ ∀ x y, x ∈ dropped → y ∈ individuals (replace self new_individuals) →
               le_ (fitness self x) (fitness self y).
Proof.
  intros Hne.
  destruct (replace_split self new_individuals Hne) as (dropped & Hsplit & Hlen).
  pose proof (sort_by_key_Sorted (fitness self)
                (individuals self ++ new_individuals)) as Hsorted.
  pose proof (sort_by_key_length (fitness self)
                (individuals self ++ new_individuals)) as Hmerged.
  rewrite Hsplit in Hsorted, Hmerged.
  split_and!.
  - apply replace_sorted.
  - rewrite !length_app in Hmerged. lia.
  - exists dropped. split_and!; [done | |].
    + rewrite <- Hsplit. apply sort_by_key_Permutation.
    + intros x y Hx Hy. apply Sorted_StronglySorted in Hsorted; [| apply _].
      by apply (StronglySorted_app_1_elem_of (fitness_le (fitness self))
                  dropped _ x y Hsorted).
Qed.

(** X5. [replace] on an empty population keeps every individual it is
    given (the slice [[-0:]] is the whole list), so the size is not kept:
    the population becomes the given individuals, sorted. *)
Theorem replace_on_empty_keeps_all (self : Population K I)
    (new_individuals : list I) :
  individuals self = [] →
  individuals (replace self new_individuals) ≡ₚ new_individuals
  ∧ length (individuals (replace self new_individuals))
    = length new_individuals
  ∧ sorted_by_fitness (replace self new_individuals).
Proof.
  intros Hnil.
  assert (Heq : individuals (replace self new_individuals)
                = sort_by_key (fitness self) new_individuals).
  { unfold replace. cbn [individuals]. rewrite Hnil. cbn [length app].
    by rewrite bool_decide_eq_true_2. }
  split_and!.
  - rewrite Heq. apply sort_by_key_Permutation.
  - rewrite Heq. apply sort_by_key_length.
  - apply replace_sorted.
Qed.

(** X6. After [replace] on a non-empty population,
    [get_best_individual] returns an individual at least as fit as every
    old and every new one. *)
Theorem best_after_replace (self : Population K I) (new_individuals : list I) :
  individuals self ≠ [] →
  ∃ best,
    get_best_individual (replace self new_individuals) = Ok best
    ∧ best ∈ individuals self ++ new_individuals
    ∧ ∀ x, x ∈ individuals self ++ new_individuals →
           le_ (fitness self x) (fitness self best).
Proof.
  intros Hne.
  destruct (replace_split self new_individuals Hne) as (dropped & Hsplit & Hlen).
  assert (Hne' : individuals (replace self new_individuals) ≠ []).
  { intros Hnil. apply (f_equal length) in Hsplit.
    rewrite sort_by_key_length, Hnil, !length_app in Hsplit. simpl in Hsplit.
    destruct (individuals self); [done | simpl in Hsplit; lia]. }
  destruct (get_best_individual_sorted (replace self new_individuals)
              (replace_sorted self new_individuals) Hne')
    as (best & Hbest & Hin & Hmax).
  pose proof (sort_by_key_Sorted (fitness self)
                (individuals self ++ new_individuals)) as Hsorted.
  rewrite Hsplit in Hsorted.
  apply Sorted_StronglySorted in Hsorted; [| apply _].
  exists best. split_and!; [done | |].
  - rewrite <- (sort_by_key_Permutation (fitness self)), Hsplit.
    apply elem_of_app. by right.
  - intros x Hx.
    rewrite <- (sort_by_key_Permutation (fitness self)), Hsplit in Hx.
    apply elem_of_app in Hx as [Hx | Hx]; [| by apply Hmax].
    by apply (StronglySorted_app_1_elem_of (fitness_le (fitness self))
                dropped _ x best Hsorted).
Qed.

(** X7. What [tournament_selection] raises: ValueError when the
    tournament size is negative or exceeds the population (from
    [random.sample]), IndexError when it is 0 (an empty sample has no
    first contestant). *)
Theorem tournament_selection_errors (self : Population K I) (k : Z)
    (drawn : list nat) :
  ((k < 0 ∨ Z.of_nat (length (individuals self)) < k)%Z →
   tournament_selection self k drawn = Raise ValueError)
  ∧ (sample_ok (length (individuals self)) 0 drawn →
     tournament_selection self 0 drawn = Raise IndexError).
Proof.
  split.
  - intros Hk. unfold tournament_selection, random_sample.
    by rewrite bool_decide_eq_true_2.
  - intros Hs. unfold tournament_selection.
    rewrite (random_sample_ok _ _ _ Hs). destruct Hs as (Hlen & _).
    destruct drawn; [done | simpl in Hlen; lia].
Qed.

(** X8. A tournament as large as the population always returns a
    fittest individual of the whole population. *)
Theorem full_tournament_returns_fittest (self : Population K I)
    (drawn : list nat) :
  individuals self ≠ [] →
  sample_ok (length (individuals self))
    (Z.of_nat (length (individuals self))) drawn →
  ∃ winner,
    tournament_selection self (Z.of_nat (length (individuals self))) drawn
    = Ok winner
    ∧ winner ∈ individuals self
    ∧ ∀ x, x ∈ individuals self → le_ (fitness self x) (fitness self winner).
Proof.
  intros Hne Hs.
  assert (Hk : (1 ≤ Z.of_nat (length (individuals self))
                ≤ Z.of_nat (length (individuals self)))%Z).
  { destruct (individuals self); [done | simpl; lia]. }
  destruct (tournament_selection_spec self _ drawn Hk Hs)
    as (pos & idx & winner & Hsel & _ & _ & _ & Hw & Hle & _).
  exists winner. split_and!; [done | by eapply list_elem_of_lookup_2 |].
  intros x Hx. apply list_elem_of_lookup_1 in Hx as [i Hi].
  destruct Hs as (Hlen & Hnd & Hall).
  assert (Hperm : drawn ≡ₚ seq 0 (length (individuals self))).
  { apply submseteq_length_Permutation.
    - apply NoDup_submseteq; [done |]. intros j Hj.
      rewrite Forall_forall in Hall. apply elem_of_seq.
      specialize (Hall j Hj). simpl in Hall. lia.
    - rewrite length_seq. lia. }
  assert (Hin : i ∈ drawn).
  { rewrite Hperm. apply elem_of_seq. apply lookup_lt_Some in Hi. lia. }
  apply list_elem_of_lookup_1 in Hin as [pos' Hpos'].
  by eapply Hle.
Qed.

End population_more.

(** ** One generation, for any kind of individual ([base.py]) *)

Section step_more.
Context {K : Type} `{Number K} {I : Type} `{Individual I}.

Lemma offspring_loop_shape (self : Evolution K I)
    (draws : nat → OffspringDraw I) (todo pass : nat)
    (new_individuals : list I) (mutation_count : nat)
    (result_list : list I) (mutation_count' : nat) :
  offspring_loop self draws todo pass new_individuals mutation_count
  = Ok (result_list, mutation_count') →
  ∃ offspring,
    result_list = new_individuals ++ offspring
    ∧ length offspring = todo
    ∧ mutation_count ≤ mutation_count' ≤ mutation_count + todo.
Proof.
  revert pass new_individuals mutation_count.
  induction todo as [| todo IH]; intros pass new_individuals mutation_count.
  - simpl. intros [= <- <-]. exists []. rewrite app_nil_r. split_and!; [done.. | lia].
  - cbn [offspring_loop].
    destruct (tournament_selection _ _ (parent1_draw _)) as [parent1 |]; [| done].
    destruct (tournament_selection _ _ (parent2_draw _)) as [parent2 |]; [| done].
    cbn [rbind]. destruct (pair _ _ _ _) as [child |]; [| done].
    cbn [rbind]. destruct (mutate _ _ _) as [[child' mutated] |]; [| done].
    cbn [rbind]. intros Hloop.
    apply IH in Hloop as (offspring & -> & Hlen & Hcount).
    exists (child' :: offspring). rewrite <- app_assoc. split_and!; [done | simpl; lia | |];
      destruct mutated; lia.
Qed.

Lemma step_Ok_shape (self self' : Evolution K I)
    (draws : nat → OffspringDraw I) (mutations : nat) :
  step self draws = Ok (self', mutations) →
  length (individuals (pool self')) = length (individuals (pool self))
  ∧ head (individuals (pool self')) = last (individuals (pool self))
  ∧ mutations ≤ length (individuals (pool self)) - 1
  ∧ fitness (pool self') = fitness (pool self)
  ∧ pair_params self' = pair_params self
  ∧ mutate_params self' = mutate_params self
  ∧ n_offsprings self' = n_offsprings self
  ∧ tournament_size self' = tournament_size self.
Proof.
  unfold step, get_best_individual.
  destruct (last (individuals (pool self))) as [best |] eqn:Hlast; [| done].
  cbn [rbind length].
  destruct (offspring_loop _ _ _ _ _ _) as [[l mc] |] eqn:Hloop; [| done].
  cbn [rbind]. intros [= <- <-]. cbn [pool individuals fitness pair_params
    mutate_params n_offsprings tournament_size].
  apply offspring_loop_shape in Hloop as (offspring & -> & Hlen & Hcount).
  assert (1 ≤ length (individuals (pool self))).
  { apply last_Some in Hlast as [l' ->]. rewrite length_app. simpl. lia. }
  split_and!; try done; simpl; lia.
Qed.

(** X9. Whenever [step] returns, the new population has the size of the
    old one and starts with the old population's last individual, the
    mutation count is at most the number of offspring, and nothing else
    of the engine has changed. *)
Theorem step_keeps_size (self self' : Evolution K I)
    (draws : nat → OffspringDraw I) (mutations : nat) :
  step self draws = Ok (self', mutations) →
  length (individuals (pool self')) = length (individuals (pool self))
  ∧ head (individuals (pool self')) = last (individuals (pool self))
  ∧ mutations ≤ length (individuals (pool self)) - 1
  ∧ fitness (pool self') = fitness (pool self)
  ∧ pair_params self' = pair_params self
  ∧ mutate_params self' = mutate_params self
  ∧ n_offsprings self' = n_offsprings self
  ∧ tournament_size self' = tournament_size self.
Proof. apply step_Ok_shape. Qed.

End step_more.

(** ** The TSP operators, further ([tsp.py]) *)

Lemma filter_all {A : Type} (P : A → Prop) `{∀ x, Decision (P x)} (l : list A) :
  Forall P l → filter P l = l.
Proof.
  induction 1 as [| x l Hx _ IH]; [done |].
  by rewrite filter_cons_True, IH.
Qed.

Lemma filter_none {A : Type} (P : A → Prop) `{∀ x, Decision (P x)} (l : list A) :
  Forall (λ x, ¬ P x) l → filter P l = [].
Proof.
  induction 1 as [| x l Hx _ IH]; [done |].
  by rewrite filter_cons_False.
Qed.

Section tsp_more.
Context {K : Type} `{Number K}.

(** X10. Crossing a duplicate-free individual with itself gives the
    individual back, whatever the cut points. *)
Theorem pair_with_itself (self : TSP) (alpha : K) (drawn : list nat) :
  NoDup (value self) →
  sample_ok (length (value self)) 2 drawn →
  TSP_pair self self alpha drawn = Ok self.
Proof.
  intros Hnd Hs. destruct self as [v]. simpl in *.
  destruct (cut_points_Ok _ _ Hs) as (s & e & Hc & Hse & He).
  unfold TSP_pair. cbn [value]. rewrite Hc. cbn [rbind]. do 2 f_equal.
  set (seg := take (e - s) (drop s v)).
  assert (Hv : v = take s v ++ seg ++ drop e v).
  { unfold seg. rewrite <- (take_drop s v) at 1. f_equal.
    rewrite <- (take_drop (e - s) (drop s v)) at 1. f_equal.
    rewrite drop_drop. f_equal. lia. }
  rewrite Hv in Hnd.
  apply NoDup_app in Hnd as (_ & Hpre & Hnd).
  apply NoDup_app in Hnd as (_ & Hpost & _).
  assert (Hfilter : filter (λ city, city ∉ (list_to_set seg : gset nat)) v
                    = take s v ++ drop e v).
  { rewrite Hv at 1. rewrite !filter_app.
    rewrite (filter_all _ (take s v)), (filter_none _ seg), (filter_all _ (drop e v)).
    - done.
    - apply Forall_forall. intros x Hx. rewrite elem_of_list_to_set.
      intros Hseg. by apply (Hpost x).
    - apply Forall_forall. intros x Hx. rewrite elem_of_list_to_set. tauto.
    - apply Forall_forall. intros x Hx. rewrite elem_of_list_to_set.
      intros Hseg. apply (Hpre x Hx). apply elem_of_app. by left. }
  rewrite Hfilter.
  assert (Hlen : length (take s v) = s) by (rewrite length_take; lia).
  rewrite take_app_length', drop_app_length' by done. by rewrite <- Hv.
Qed.

(** X11. On an individual of fewer than two cities [pair] raises
    ValueError, and [mutate] raises ValueError exactly when the coin
    falls below the rate (otherwise it returns the individual
    untouched). *)
Theorem operators_need_two_cities (self other : TSP) (alpha rate : K)
    (drawn : list nat) (d : TSPMutateDraw) :
  length (value self) < 2 →
  TSP_pair self other alpha drawn = Raise ValueError
  ∧ TSP_mutate self rate d
    = if nltb (coin d) rate then Raise ValueError else Ok (self, false).
Proof.
  intros Hlen. split.
  - unfold TSP_pair, cut_points. rewrite random_sample_too_large; [done | lia].
  - unfold TSP_mutate. destruct (nltb (coin d) rate); [| done].
    rewrite random_sample_too_large; [done | lia].
Qed.

(** X12. A swap is its own inverse: when the mutation fires, mutating
    again with the same two positions restores the individual. *)
Theorem mutate_twice_restores (self : TSP) (rate : K) (d : TSPMutateDraw) :
  nltb (coin d) rate = true →
  sample_ok (length (value self)) 2 (swap_draw d) →
  ∃ self',
    TSP_mutate self rate d = Ok (self', true)
    ∧ TSP_mutate self' rate d = Ok (self, true).
Proof.
  intros Hfire Hs. destruct self as [v]. destruct d as [c positions].
  simpl in *.
  pose proof (random_sample_ok _ _ _ Hs) as Hsample.
  apply sample_two in Hs as (i & j & -> & Hij & Hi & Hj).
  destruct (lookup_lt_is_Some_2 _ _ Hi) as [vi Hvi].
  destruct (lookup_lt_is_Some_2 _ _ Hj) as [vj Hvj].
  exists (mkTSP (<[j := vi]> (<[i := vj]> v))). split.
  - unfold TSP_mutate. cbn [value coin swap_draw]. rewrite Hfire, Hsample.
    cbn [rbind]. unfold index. by rewrite Hvi, Hvj.
  - unfold TSP_mutate. cbn [value coin swap_draw]. rewrite Hfire.
    rewrite !length_insert, Hsample. cbn [rbind]. unfold index.
    rewrite list_lookup_insert_eq by (by rewrite length_insert).
    rewrite list_lookup_insert_ne by done.
    rewrite list_lookup_insert_eq by done. cbn [rbind].
    do 3 f_equal. apply list_eq. intros k.
    destruct (decide (k = j)) as [-> | Hkj].
    + by rewrite list_lookup_insert_eq by (by rewrite !length_insert).
    + rewrite list_lookup_insert_ne by done.
      destruct (decide (k = i)) as [-> | Hki].
      * by rewrite list_lookup_insert_eq by (by rewrite !length_insert).
      * by rewrite !list_lookup_insert_ne by done.
Qed.

End tsp_more.

Section tsp_step_more.
Context {K : Type} `{NumberOrder K}.

Lemma offspring_loop_fired (n_cities : nat) (self : Evolution K TSP)
    (draws : nat → OffspringDraw TSP) (todo pass : nat)
    (new_individuals : list TSP) (mutation_count : nat) :
  Forall (is_route n_cities) (individuals (pool self)) →
  (1 ≤ tournament_size self ≤ Z.of_nat (length (individuals (pool self))))%Z →
  (∀ i, pass ≤ i < pass + todo →
        offspring_draw_ok (K:=K) n_cities (length (individuals (pool self)))
          (tournament_size self) (mutate_params self) (draws i)) →
  ∃ result_list,
    offspring_loop self draws todo pass new_individuals mutation_count
    = Ok (result_list,
          mutation_count
          + length (filter
              (λ p, nltb (coin (mutate_draw (draws p)))
                      (mutate_params self : K) = true)
              (seq pass todo))).
Proof.
  intros Hroutes Hk. rewrite Forall_forall in Hroutes.
  revert pass new_individuals mutation_count.
  induction todo as [| todo IH]; intros pass new_individuals mutation_count Hd.
  - exists new_individuals. simpl. by rewrite Nat.add_0_r.
  - destruct (Hd pass) as (Hd1 & Hd2 & Hd3 & Hd4); [lia |].
    destruct (tournament_selection_member _ _ _ Hk Hd1) as (parent1 & Hp1 & Hin1).
    destruct (tournament_selection_member _ _ _ Hk Hd2) as (parent2 & Hp2 & Hin2).
    destruct (TSP_pair_route n_cities parent1 parent2 (pair_params self)
                (pair_draw (draws pass)))
      as (child & Hpair & Hchild); [by apply Hroutes | by apply Hroutes | done |].
    rewrite <- (is_route_length _ _ Hchild) in Hd4.
    destruct (TSP_mutate_spec child (mutate_params self)
                (mutate_draw (draws pass)) Hd4)
      as (child' & mutated & Hmut & Hfired & _).
    destruct (IH (S pass) (new_individuals ++ [child'])
                (if mutated then mutation_count + 1 else mutation_count))
      as (result_list & Hloop).
    { intros i Hi. apply Hd. lia. }
    exists result_list.
    assert (Hpair' : pair parent1 parent2 (pair_params self)
                       (pair_draw (draws pass)) = Ok child) by exact Hpair.
    assert (Hmut' : mutate child (mutate_params self)
                      (mutate_draw (draws pass)) = Ok (child', mutated))
      by exact Hmut.
    cbn [offspring_loop]. rewrite Hp1, Hp2. cbn [rbind].
    rewrite Hpair'. cbn [rbind]. rewrite Hmut'. cbn [rbind]. rewrite Hloop.
    do 2 f_equal. cbn [seq]. rewrite filter_cons. rewrite Hfired.
    destruct (nltb _ _) eqn:Hcoin.
    + rewrite decide_True by done. simpl. lia.
    + rewrite decide_False by done. lia.
Qed.

(** X13. On a non-empty pool of routes, with draws that meet their
    contracts, [step] returns exactly the number of passes whose coin
    fell below the mutation rate. *)
Theorem step_counts_fired_mutations (n_cities : nat)
    (self : Evolution K TSP) (draws : nat → OffspringDraw TSP) :
  individuals (pool self) ≠ [] →
  Forall (is_route n_cities) (individuals (pool self)) →
  (1 ≤ tournament_size self ≤ Z.of_nat (length (individuals (pool self))))%Z →
  step_draws_ok n_cities self draws →
  ∃ self',
    step self draws
    = Ok (self',
          length (filter
            (λ p, nltb (coin (mutate_draw (draws p)))
                    (mutate_params self : K) = true)
            (seq 0 (length (individuals (pool self)) - 1)))).
Proof.
  intros Hne Hroutes Hk Hd.
  destruct (get_best_individual_nonempty (pool self) Hne) as (best & Hbest & _).
  destruct (offspring_loop_fired n_cities self draws
              (length (individuals (pool self)) - 1) 0 [best] 0 Hroutes Hk)
    as (result_list & Hloop).
  { intros i Hi. apply Hd. lia. }
  unfold step. rewrite Hbest. cbn [rbind length]. rewrite Hloop. cbn [rbind].
  by eexists.
Qed.

End tsp_step_more.

(** ** Plotting a route ([visualization.py]) *)

Section plot_more.
Context {K : Type}.

Lemma plot_route_city_out_of_range (cities : list (K * K)) (route : list nat)
    (city_names : list string) :
  ¬ Forall (λ city, city < length cities) route →
  plot_route cities route city_names = ([], Raise IndexError).
Proof.
  intros Hrange. apply not_Forall_Exists in Hrange; [| apply _].
  apply Exists_exists in Hrange as (bad & Hin & Hbad). simpl in Hbad.
  unfold plot_route.
  rewrite (foldl_some_Raise _ IndexError); [done | done | |].
  - intros s x Hx. simpl. unfold index.
    destruct (cities !! x); simpl; [right; by eexists | by left].
  - exists bad. split; [done |]. intros s. simpl. unfold index.
    by rewrite (lookup_ge_None_2 cities bad) by lia.
Qed.

(** X14. On a route of non-negative city indices, [plot_route] returns
    if the route is not empty, every city of it is below [len(cities)],
    and the names are either absent (empty) or longer than every city
    index of it; in every other case it raises IndexError. *)
Theorem plot_route_returns_iff (cities : list (K * K)) (route : list nat)
    (city_names : list string) :
  (plot_route cities route city_names).2
  = if decide (route ≠ []
               ∧ Forall (λ city, city < length cities) route
               ∧ (city_names = []
                  ∨ Forall (λ city, city < length city_names) route))
    then Ok tt
    else Raise IndexError.
Proof.
  case_decide as Hok.
  - destruct Hok as (Hne & Hcities & Hnames).
    by rewrite plot_route_Ok.
  - destruct (decide (Forall (λ city, city < length cities) route))
      as [Hcities | Hcities];
      [| by rewrite plot_route_city_out_of_range].
    destruct route as [| first_city route].
    + reflexivity.
    + destruct (decide (city_names = [])) as [Hnil | Hnames].
      { destruct Hok. split_and!; [done | done | by left]. }
      rewrite plot_route_short_names; [done | done | done |].
      destruct (decide (Forall (λ city, city < length city_names)
                          (first_city :: route))) as [Hall | Hnot].
      { destruct Hok. split_and!; [done | done | by right]. }
      apply not_Forall_Exists in Hnot; [| apply _].
      apply Exists_exists in Hnot as (bad & Hin & Hbad). simpl in Hbad.
      exists bad. split; [done | lia].
Qed.

End plot_more.

(** ** Outcomes of a run ([run_tsp_evolution]) *)

Lemma outcome_bind_Ok {A B : Type} (m : io A) (f : A → io B) (a : A) :
  saved m = [] → m.2 = Ok a → outcome (io_bind m f) = outcome (f a).
Proof.
  intros Hs Hm. unfold outcome. by rewrite saved_bind, result_bind, Hs, Hm.
Qed.

Lemma outcome_bind_Raise {A B : Type} (m : io A) (f : A → io B) (e : exn) :
  saved m = [] → m.2 = Raise e → outcome (io_bind m f) = ([], Raise e).
Proof.
  intros Hs Hm. unfold outcome. by rewrite saved_bind, result_bind, Hs, Hm.
Qed.

Lemma outcome_print {B : Type} (enabled : bool) (f : unit → io B) :
  outcome (io_bind (print enabled) f) = outcome (f tt).
Proof. apply outcome_bind_Ok; [apply saved_print | apply print_result]. Qed.

Lemma outcome_savefig {K B : Type} (env : Environment K) (path : string)
    (f : unit → io B) :
  outcome (io_bind (savefig env path) f)
  = if results_dir_ok env
    then (path :: (outcome (f tt)).1, (outcome (f tt)).2)
    else ([], Raise FileNotFoundError).
Proof.
  unfold outcome, savefig. rewrite saved_bind, result_bind.
  by destruct (results_dir_ok env).
Qed.

Lemma result_bind_inv {A B : Type} (m : io A) (f : A → io B) (b : B) :
  (io_bind m f).2 = Ok b → ∃ a, m.2 = Ok a ∧ (f a).2 = Ok b.
Proof.
  rewrite result_bind. destruct (m.2) as [a | e]; [| done]. by exists a.
Qed.

Section run_outcomes.
Context {K : Type} `{NumberOrder K}.

(** X15. With a population size below 1 the run raises IndexError at
    its first [get_best_individual], before any epoch and whatever the
    other arguments; no file is written. *)
Theorem run_with_empty_population (norm : K * K → K) (env : Environment K)
    (draws : RunDraws) (cities : list (K * K))
    (city_names : option (list string))
    (population_size tournament_size : Z) (mutation_rate : K)
    (n_offsprings n_epochs : Z) (crossover_alpha : K) (verbose : bool) :
  (population_size < 1)%Z →
  outcome (run_tsp_evolution norm env draws cities city_names population_size
             tournament_size mutation_rate n_offsprings n_epochs
             crossover_alpha verbose)
  = ([], Raise IndexError).
Proof.
  intros Hsize. unfold run_tsp_evolution. cbv zeta.
  rewrite !outcome_print.
  rewrite get_best_individual_empty.
  - by apply outcome_bind_Raise.
  - apply length_zero_iff_nil. rewrite Evolution_init_length. lia.
Qed.

(** X16. With a tournament size above a population size of two or more
    and at least one epoch, the run raises ValueError in its first
    [step]; no file is written. *)
Theorem run_with_oversized_tournament (norm : K * K → K)
    (env : Environment K) (draws : RunDraws) (cities : list (K * K))
    (city_names : option (list string))
    (population_size tournament_size : Z) (mutation_rate : K)
    (n_offsprings n_epochs : Z) (crossover_alpha : K) (verbose : bool) :
  (2 ≤ population_size)%Z → (population_size < tournament_size)%Z →
  (1 ≤ n_epochs)%Z →
  outcome (run_tsp_evolution norm env draws cities city_names population_size
             tournament_size mutation_rate n_offsprings n_epochs
             crossover_alpha verbose)
  = ([], Raise ValueError).
Proof.
  intros Hsize Hk Hepochs. unfold run_tsp_evolution. cbv zeta.
  set (evo := Evolution_init _ _ _ _ _ _ _ _).
  assert (Hlen : length (individuals (pool evo)) = Z.to_nat population_size).
  { unfold evo. apply Evolution_init_length. }
  destruct (get_best_individual_nonempty (pool evo)) as (best & Hbest & _).
  { intros Hnil. rewrite Hnil in Hlen. simpl in Hlen. lia. }
  rewrite !outcome_print. rewrite Hbest.
  rewrite (outcome_bind_Ok _ _ best) by done.
  rewrite !outcome_print.
  apply outcome_bind_Raise; [apply saved_io_foldl, saved_epoch_body |].
  destruct (Z.to_nat n_epochs) as [| count] eqn:Hcount; [lia |].
  cbn [seq io_foldl]. apply result_bind_Raise.
  unfold epoch_body. cbn [s_evo].
  rewrite (step_oversized_tournament evo) by (rewrite Hlen; simpl; lia).
  by apply result_bind_Raise.
Qed.

End run_outcomes.

Section run_tail.
Context {K : Type} `{NumberOrder K}.

(** The run once its loop has returned: the summary, the two plots and
    the result record. *)
Lemma run_after_loop (norm : K * K → K) (env : Environment K)
    (draws : RunDraws) (cities : list (K * K))
    (city_names : option (list string))
    (population_size tournament_size : Z) (mutation_rate : K)
    (n_offsprings n_epochs : Z) (crossover_alpha : K) (verbose : bool)
    (best : TSP) (st : RunState) (final : K) :
  let evo :=
    Evolution_init population_size (score (calculate_distances norm cities))
      n_offsprings crossover_alpha mutation_rate (length cities)
      tournament_size (init_draws draws) in
  let initial := nneg (fitness (pool evo) best) in
  let names :=
    match city_names with
    | None => (λ i, pretty i) <$> seq 0 (length cities)
    | Some names => names
    end in
  get_best_individual (pool evo) = Ok best →
  (io_foldl (epoch_body draws verbose)
     (mkRunState evo (value best) [initial] 0 0 0)
     (seq 0 (Z.to_nat n_epochs))).2 = Ok st →
  last (s_best_lengths st) = Some final →
  cities ≠ [] →
  verbose = false ∨ n_epochs ≠ 0%Z →
  plot_route cities (s_best_route st) names
  = ([PlotRoute (s_best_route st)], Ok tt) →
  outcome (run_tsp_evolution norm env draws cities city_names population_size
             tournament_size mutation_rate n_offsprings n_epochs
             crossover_alpha verbose)
  = if results_dir_ok env
    then (run_files,
          Ok (mkRunResult (s_best_route st) final
                (nmul (ndiv (nsub initial final) initial) nhundred)
                (s_best_lengths st) (elapsed env) (s_improvements st)
                (s_last_improvement st) (s_total_mutations st)))
    else ([], Raise FileNotFoundError).
Proof.
  intros evo initial names Hbest Hloop Hlast Hcities Hverbose Hplot.
  unfold run_tsp_evolution. cbv zeta. fold evo. fold names.
  rewrite !outcome_print. rewrite Hbest.
  rewrite (outcome_bind_Ok _ _ best) by done.
  rewrite !outcome_print. fold initial.
  rewrite (outcome_bind_Ok _ _ st);
    [| apply saved_io_foldl, saved_epoch_body | exact Hloop].
  assert (Hfinal : index_from_end (s_best_lengths st) 1 = Ok final).
  { apply last_Some in Hlast as [l' ->]. apply index_from_end_last. }
  rewrite Hfinal. rewrite (outcome_bind_Ok _ _ final) by done.
  rewrite bool_decide_eq_false_2 by (by destruct cities).
  rewrite (outcome_bind_Ok (lift (Ok _)) _ _) by done.
  rewrite !outcome_print.
  rewrite (outcome_bind_Ok _ _ tt).
  2: { by repeat case_match. }
  2: { destruct verbose; [| done]. destruct Hverbose as [? | Hne]; [done |].
       by rewrite bool_decide_eq_false_2. }
  rewrite Hplot. rewrite (outcome_bind_Ok _ _ tt) by done.
  rewrite outcome_savefig. destruct (results_dir_ok env) eqn:Henv; [| done].
  rewrite (outcome_bind_Ok (emit PlotHistory) _ tt) by done.
  rewrite outcome_savefig, Henv.
  rewrite (outcome_bind_Ok _ _ tt) by done.
  reflexivity.
Qed.

Lemma names_cover_route (cities : list (K * K)) (route : list nat) :
  route ≡ₚ seq 0 (length cities) → cities ≠ [] →
  plot_route cities route ((λ i, pretty i) <$> seq 0 (length cities))
  = ([PlotRoute route], Ok tt).
Proof.
  intros Hroute Hcities.
  assert (Hrange : Forall (λ city, city < length cities) route).
  { apply Forall_forall. intros city Hcity. rewrite Hroute in Hcity.
    apply elem_of_seq in Hcity. lia. }
  apply plot_route_Ok; [| done |].
  - intros Hnil. apply (f_equal length) in Hnil.
    rewrite (Permutation_length Hroute), length_seq in Hnil.
    by destruct cities.
  - right. by rewrite length_fmap, length_seq.
Qed.

(** X17. On valid parameters (population of at least 1, at least 2
    cities, tournament size between 1 and the population size), with
    draws that meet their contracts and both plots saved without error,
    a run that is not verbose with [n_epochs = 0] writes the two plots,
    the route first, and returns a result whose history has
    [1 + max(n_epochs, 0)] entries and whose best route is a permutation
    of the cities. *)
Theorem run_on_valid_input (norm : K * K → K) (env : Environment K)
    (draws : RunDraws) (cities : list (K * K))
    (population_size tournament_size : Z) (mutation_rate : K)
    (n_offsprings n_epochs : Z) (crossover_alpha : K) (verbose : bool) :
  (1 ≤ population_size)%Z → 2 ≤ length cities →
  (1 ≤ tournament_size ≤ population_size)%Z →
  run_draws_ok (length cities) population_size tournament_size mutation_rate
    draws →
  verbose = false ∨ n_epochs ≠ 0%Z →
  results_dir_ok env = true →
  ∃ r,
    outcome (run_tsp_evolution norm env draws cities None population_size
               tournament_size mutation_rate n_offsprings n_epochs
               crossover_alpha verbose)
    = (run_files, Ok r)
    ∧ Z.of_nat (length (length_history r)) = (1 + Z.max n_epochs 0)%Z
    ∧ best_route r ≡ₚ seq 0 (length cities).
Proof.
  intros Hpop Hcities Hk [Hinit Hd] Hverbose Henv.
  set (evo := Evolution_init (I:=TSP) (H0:=TSP_Individual) population_size
                (score (calculate_distances norm cities)) n_offsprings
                crossover_alpha mutation_rate (length cities)
                tournament_size (init_draws draws)).
  assert (Hlen : length (individuals (pool evo)) = Z.to_nat population_size).
  { unfold evo. apply Evolution_init_length. }
  assert (Hroutes : Forall (is_route (length cities)) (individuals (pool evo))).
  { unfold evo. by apply Evolution_init_routes. }
  destruct (get_best_individual_nonempty (pool evo)) as (best & Hbest & Hin).
  { intros Hnil. rewrite Hnil in Hlen. simpl in Hlen. lia. }
  assert (Hroute : is_route (length cities) best).
  { rewrite Forall_forall in Hroutes. by apply Hroutes. }
  destruct (epochs_Ok (length cities) (Z.to_nat population_size)
              tournament_size mutation_rate draws verbose
              (Z.to_nat n_epochs) 0 1
              (mkRunState evo (value best)
                 [nneg (fitness (pool evo) best)] 0 0 0))
    as (st & Hloop & Hinv); [lia | lia | lia | done | |].
  { unfold run_invariant. simpl. split_and!; try done. }
  destruct Hinv as (_ & _ & _ & _ & Hhist & Hbr).
  assert (Hne : cities ≠ []) by (destruct cities; [simpl in Hcities; lia | done]).
  destruct (last (s_best_lengths st)) as [final |] eqn:Hlast.
  2: { apply last_None in Hlast. rewrite Hlast in Hhist. simpl in Hhist. lia. }
  eexists. split_and!.
  - rewrite (run_after_loop norm env draws cities None population_size
               tournament_size mutation_rate n_offsprings n_epochs
               crossover_alpha verbose best st final);
      [by rewrite Henv | done | done | done | done | done |].
    by apply names_cover_route.
  - simpl. lia.
  - done.
Qed.

End run_tail.


Lemma index_from_end_1_last {A : Type} (l : list A) (x : A) :
  index_from_end l 1 = Ok x → last l = Some x.
Proof.
  unfold index_from_end, index. case_bool_decide as Hlen; [| done].
  rewrite last_lookup.
  replace (pred (length l)) with (length l - 1) by lia.
  by destruct (l !! (length l - 1)); intros [= ->].
Qed.

Section run_edges.
Context {K : Type} `{NumberOrder K}.

(** X18. With [n_epochs <= 0] no epoch runs: unless the run is verbose
    with [n_epochs = 0], it comes to its plots with a history of one
    entry, the length of the initial best individual, that individual's
    route as best route and all counters at 0 - also for a negative
    [n_epochs] with [verbose] set, and whatever the tournament size. *)
Theorem run_without_epochs (norm : K * K → K) (env : Environment K)
    (draws : RunDraws) (cities : list (K * K))
    (population_size tournament_size : Z) (mutation_rate : K)
    (n_offsprings n_epochs : Z) (crossover_alpha : K) (verbose : bool) :
  (n_epochs ≤ 0)%Z →
  verbose = false ∨ n_epochs ≠ 0%Z →
  (1 ≤ population_size)%Z →
  cities ≠ [] →
  (∀ i, permutation_ok (length cities) (init_draws draws i)) →
  ∃ best initial,
    get_best_individual
      (pool (Evolution_init (I:=TSP) (H0:=TSP_Individual) population_size
               (score (calculate_distances norm cities)) n_offsprings
               crossover_alpha mutation_rate (length cities) tournament_size
               (init_draws draws))) = Ok best
    ∧ initial = nneg (score (calculate_distances norm cities) best)
    ∧ outcome (run_tsp_evolution norm env draws cities None population_size
                 tournament_size mutation_rate n_offsprings n_epochs
                 crossover_alpha verbose)
      = if results_dir_ok env
        then (run_files,
              Ok (mkRunResult (value best) initial
                    (nmul (ndiv (nsub initial initial) initial) nhundred)
                    [initial] (elapsed env) 0 0 0))
        else ([], Raise FileNotFoundError).
Proof.
  intros Hepochs Hverbose Hpop Hcities Hinit.
  set (evo := Evolution_init (I:=TSP) (H0:=TSP_Individual) _ _ _ _ _ _ _ _).
  destruct (get_best_individual_nonempty (pool evo)) as (best & Hbest & Hin).
  { intros Hnil. apply (f_equal length) in Hnil.
    unfold evo in Hnil. rewrite Evolution_init_length in Hnil. simpl in Hnil. lia. }
  assert (Hroute : is_route (length cities) best).
  { pose proof (Evolution_init_routes population_size
                  (score (calculate_distances norm cities)) n_offsprings
                  crossover_alpha mutation_rate (length cities)
                  tournament_size (init_draws draws) Hinit) as Hroutes.
    rewrite Forall_forall in Hroutes. by apply Hroutes. }
  exists best, (nneg (score (calculate_distances norm cities) best)).
  split_and!; [done | done |].
  apply (run_after_loop norm env draws cities None population_size
           tournament_size mutation_rate n_offsprings n_epochs
           crossover_alpha verbose best
           (mkRunState evo (value best)
              [nneg (score (calculate_distances norm cities) best)] 0 0 0));
    try done.
  - by replace (Z.to_nat n_epochs) with 0 by lia.
  - by apply names_cover_route.
Qed.



End run_edges.

Section run_bookkeeping.
Context {K : Type} `{Number K}.

Lemma epoch_body_bookkeeping (pool_size : nat) (initial : K)
    (draws : RunDraws) (verbose : bool) (st st' : RunState) (epoch : nat) :
  (epoch_body draws verbose st epoch).2 = Ok st' →
  bookkeeping pool_size initial epoch st →
  bookkeeping pool_size initial (S epoch) st'.
Proof.
  intros Hbody (Hpool & Hhead & Hlen & Himp & Hlast & Hmut).
  unfold epoch_body in Hbody.
  apply result_bind_inv in Hbody as ([evo mutations] & Hstep & Hbody).
  apply result_bind_inv in Hbody as (current_best & _ & Hbody).
  apply result_bind_inv in Hbody as (previous & _ & Hbody).
  apply result_bind_inv in Hbody as (_ & _ & Hbody).
  cbn [lift snd] in Hstep.
  apply step_Ok_shape in Hstep as (Hsize & _ & Hcount & _).
  rewrite Hpool in Hsize, Hcount.
  assert (Hhead' : ∀ x, head (s_best_lengths st ++ [x]) = Some initial).
  { intros x. destruct (s_best_lengths st); [done | by simpl in *]. }
  assert (Hmut' : s_total_mutations st + mutations
                  ≤ S epoch * (pool_size - 1)).
  { rewrite Nat.mul_succ_l. lia. }
  destruct (nltb _ previous); cbn [io_ret snd] in Hbody;
    injection Hbody as <-; unfold bookkeeping;
    cbn [s_evo s_best_lengths s_improvements s_last_improvement
         s_total_mutations];
    rewrite length_app; simpl; split_and!; try done; try lia.
Qed.

Lemma epochs_bookkeeping (pool_size : nat) (initial : K) (draws : RunDraws)
    (verbose : bool) (count first : nat) (st st' : RunState) :
  (io_foldl (epoch_body draws verbose) st (seq first count)).2 = Ok st' →
  bookkeeping pool_size initial first st →
  bookkeeping pool_size initial (first + count) st'.
Proof.
  revert first st. induction count as [| count IH]; intros first st Hloop Hinv.
  - simpl in Hloop. injection Hloop as <-. by rewrite Nat.add_0_r.
  - cbn [seq io_foldl] in Hloop.
    apply result_bind_inv in Hloop as (st1 & Hbody & Hloop).
    replace (first + S count) with (S first + count) by lia.
    apply (IH (S first) st1 Hloop).
    by apply (epoch_body_bookkeeping pool_size initial draws verbose st).
Qed.

(** X20. Every result a run returns is consistent in its bookkeeping:
    the history starts with the length of the initial best individual
    and has [1 + max(n_epochs, 0)] entries, [best_length] is the last
    entry of the history (not its minimum), [improvements] is at most
    [max(n_epochs, 0)], [last_improvement] is at most
    [max(n_epochs - 1, 0)] (it stays 0 when no epoch improves, also
    when no epoch runs), [total_mutations] is at most
    [max(n_epochs, 0) * max(population_size - 1, 0)], and [runtime] is
    the measured time. *)
Theorem returned_result_bookkeeping (norm : K * K → K) (env : Environment K)
    (draws : RunDraws) (cities : list (K * K))
    (city_names : option (list string))
    (population_size tournament_size : Z) (mutation_rate : K)
    (n_offsprings n_epochs : Z) (crossover_alpha : K) (verbose : bool)
    (r : RunResult K) :
  (run_tsp_evolution norm env draws cities city_names population_size
     tournament_size mutation_rate n_offsprings n_epochs crossover_alpha
     verbose).2 = Ok r →
  ∃ best,
    get_best_individual
      (pool (Evolution_init (I:=TSP) (H0:=TSP_Individual) population_size
               (score (calculate_distances norm cities)) n_offsprings
               crossover_alpha mutation_rate (length cities) tournament_size
               (init_draws draws))) = Ok best
    ∧ head (length_history r)
      = Some (nneg (score (calculate_distances norm cities) best))
    ∧ Z.of_nat (length (length_history r)) = (1 + Z.max n_epochs 0)%Z
    ∧ last (length_history r) = Some (best_length r)
    ∧ (Z.of_nat (improvements r) ≤ Z.max n_epochs 0)%Z
    ∧ (Z.of_nat (last_improvement r) ≤ Z.max (n_epochs - 1) 0)%Z
    ∧ (Z.of_nat (total_mutations r)
       ≤ Z.max n_epochs 0 * Z.max (population_size - 1) 0)%Z
    ∧ runtime r = elapsed env.
Proof.
  intros Hrun. unfold run_tsp_evolution in Hrun. cbv zeta in Hrun.
  do 8 (apply result_bind_inv in Hrun as (_ & _ & Hrun)).
  apply result_bind_inv in Hrun as (best & Hbest & Hrun).
  do 4 (apply result_bind_inv in Hrun as (_ & _ & Hrun)).
  apply result_bind_inv in Hrun as (st & Hloop & Hrun).
  apply result_bind_inv in Hrun as (final & Hfinal & Hrun).
  apply result_bind_inv in Hrun as (pct & _ & Hrun).
  do 9 (apply result_bind_inv in Hrun as (_ & _ & Hrun)).
  do 6 (apply result_bind_inv in Hrun as (_ & _ & Hrun)).
  cbn [io_ret snd] in Hrun. injection Hrun as <-.
  cbn [lift snd] in Hbest, Hfinal.
  apply (epochs_bookkeeping (Z.to_nat population_size)
           (nneg (score (calculate_distances norm cities) best))) in Hloop.
  - destruct Hloop as (_ & Hhead & Hlen & Himp & Hlast & Hmut).
    exists best. cbn [length_history best_length improvements
      last_improvement total_mutations runtime].
    split_and!; try done; try lia.
    + by apply index_from_end_1_last.
    + apply Nat2Z.inj_le in Hmut. rewrite Nat2Z.inj_mul in Hmut.
      replace (Z.max n_epochs 0) with (Z.of_nat (Z.to_nat n_epochs)) by lia.
      replace (Z.max (population_size - 1) 0)
        with (Z.of_nat (Z.to_nat population_size - 1)) by lia.
      done.
  - unfold bookkeeping.
    cbn [s_evo s_best_lengths s_improvements s_last_improvement
         s_total_mutations].
    split_and!; try done; try lia. apply Evolution_init_length.
Qed.

End run_bookkeeping.

Section construction_best.
Context {K : Type} `{NumberOrder K} {I : Type} `{Individual I}.

(** X21. Right after construction with a size of at least 1,
    [get_best_individual] returns an individual at least as fit as every
    individual of the population. *)
Theorem best_after_construction (size : Z) (fit : I → K)
    (init_params : InitParams) (draws : nat → InitDraw) :
  (1 ≤ size)%Z →
  ∃ best,
    get_best_individual (Population_init size fit init_params draws) = Ok best
    ∧ best ∈ individuals (Population_init size fit init_params draws)
    ∧ ∀ x, x ∈ individuals (Population_init size fit init_params draws) →
           le_ (fit x) (fit best).
Proof.
  intros Hsize.
  apply (get_best_individual_sorted
           (Population_init size fit init_params draws)).
  - apply sort_by_key_Sorted.
  - intros Hnil. apply (f_equal length) in Hnil. simpl in Hnil.
    rewrite sort_by_key_length, length_fmap, length_seq in Hnil. lia.
Qed.

End construction_best.

(** ** The further properties at the worked instance *)

Lemma axis_pool_length (population_size tournament_size : Z) :
  length (individuals (pool (axis_engine population_size tournament_size)))
  = Z.to_nat population_size.
Proof. unfold axis_engine. apply Evolution_init_length. Qed.

Lemma axis_pool_nonempty (population_size tournament_size : Z) :
  (1 ≤ population_size)%Z →
  individuals (pool (axis_engine population_size tournament_size)) ≠ [].
Proof.
  intros Hsize Hnil. apply (f_equal length) in Hnil.
  rewrite axis_pool_length in Hnil. simpl in Hnil. lia.
Qed.

Lemma axis_offspring_draw_ok :
  offspring_draw_ok 4 2 1 (1 # 100)%Q axis_offspring_draw.
Proof.
  repeat split; try (apply (bool_decide_unpack _); vm_compute; exact I).
  vm_compute. discriminate.
Qed.

Lemma axis_run_draws_ok :
  run_draws_ok (length axis_cities) 2 1 (1 # 100)%Q axis_draws.
Proof.
  split; [apply axis_init_draws_ok | intros epoch pass; apply axis_offspring_draw_ok].
Qed.

(** X3 at the worked instance. *)
Lemma Population_init_sorted_permutation_witness :
  sorted_by_fitness
    (Population_init (I:=TSP) (H0:=TSP_Individual) 2 (score axis_distances)
       4 axis_init_draws)
  ∧ length (individuals
              (Population_init (I:=TSP) (H0:=TSP_Individual) 2
                 (score axis_distances) 4 axis_init_draws))
    = Z.to_nat 2
  ∧ individuals
      (Population_init (I:=TSP) (H0:=TSP_Individual) 2 (score axis_distances)
         4 axis_init_draws)
    ≡ₚ (λ i, _random_init (Individual := TSP_Individual (K:=Q)) 4
               (axis_init_draws i)) <$> seq 0 (Z.to_nat 2).
Proof.
  exact (Population_init_sorted_permutation (I:=TSP) (H1:=TSP_Individual) 2
           (score axis_distances) 4 axis_init_draws).
Defined.

(** X4 at the worked instance: one more tour offered to the pool of
    two. *)
Lemma replace_keeps_the_fittest_witness :
  individuals (pool (axis_engine 2 1)) ≠ []
  ∧ sorted_by_fitness (replace (pool (axis_engine 2 1)) [mkTSP [0; 1; 2; 3]])
  ∧ length (individuals
              (replace (pool (axis_engine 2 1)) [mkTSP [0; 1; 2; 3]]))
    = length (individuals (pool (axis_engine 2 1)))
  ∧ ∃ dropped,
      length dropped = length [mkTSP [0; 1; 2; 3]]
      ∧ dropped ++ individuals
                     (replace (pool (axis_engine 2 1)) [mkTSP [0; 1; 2; 3]])
        ≡ₚ individuals (pool (axis_engine 2 1)) ++ [mkTSP [0; 1; 2; 3]]
      ∧ ∀ x y, x ∈ dropped →
               y ∈ individuals
                     (replace (pool (axis_engine 2 1)) [mkTSP [0; 1; 2; 3]]) →
               le_ (fitness (pool (axis_engine 2 1)) x)
                   (fitness (pool (axis_engine 2 1)) y).
Proof.
  assert (Hne : individuals (pool (axis_engine 2 1)) ≠ [])
    by (apply axis_pool_nonempty; lia).
  split; [exact Hne |].
  exact (replace_keeps_the_fittest (pool (axis_engine 2 1))
           [mkTSP [0; 1; 2; 3]] Hne).
Defined.

(** X5 at the worked instance: two tours offered to the empty pool. *)
Lemma replace_on_empty_keeps_all_witness :
  individuals (pool (axis_engine 0 1)) = []
  ∧ individuals (replace (pool (axis_engine 0 1))
                   [mkTSP [0; 1; 2; 3]; mkTSP [0; 2; 1; 3]])
    ≡ₚ [mkTSP [0; 1; 2; 3]; mkTSP [0; 2; 1; 3]]
  ∧ length (individuals (replace (pool (axis_engine 0 1))
                           [mkTSP [0; 1; 2; 3]; mkTSP [0; 2; 1; 3]]))
    = length [mkTSP [0; 1; 2; 3]; mkTSP [0; 2; 1; 3]]
  ∧ sorted_by_fitness (replace (pool (axis_engine 0 1))
                         [mkTSP [0; 1; 2; 3]; mkTSP [0; 2; 1; 3]]).
Proof.
  assert (Hnil : individuals (pool (axis_engine 0 1)) = []) by reflexivity.
  split; [exact Hnil |].
  exact (replace_on_empty_keeps_all (pool (axis_engine 0 1))
           [mkTSP [0; 1; 2; 3]; mkTSP [0; 2; 1; 3]] Hnil).
Defined.

(** X6 at the worked instance. *)
Lemma best_after_replace_witness :
  individuals (pool (axis_engine 2 1)) ≠ []
  ∧ ∃ best,
      get_best_individual
        (replace (pool (axis_engine 2 1)) [mkTSP [0; 1; 2; 3]]) = Ok best
      ∧ best ∈ individuals (pool (axis_engine 2 1)) ++ [mkTSP [0; 1; 2; 3]]
      ∧ ∀ x, x ∈ individuals (pool (axis_engine 2 1)) ++ [mkTSP [0; 1; 2; 3]] →
             le_ (fitness (pool (axis_engine 2 1)) x)
                 (fitness (pool (axis_engine 2 1)) best).
Proof.
  assert (Hne : individuals (pool (axis_engine 2 1)) ≠ [])
    by (apply axis_pool_nonempty; lia).
  split; [exact Hne |].
  exact (best_after_replace (pool (axis_engine 2 1)) [mkTSP [0; 1; 2; 3]] Hne).
Defined.

(** X7 at the worked instance: a tournament of 5, and one of 0, on the
    pool of two. *)
Lemma tournament_selection_errors_witness :
  tournament_selection (pool (axis_engine 2 1)) 5 [0] = Raise ValueError
  ∧ tournament_selection (pool (axis_engine 2 1)) 0 [] = Raise IndexError.
Proof.
  split.
  - apply (tournament_selection_errors (pool (axis_engine 2 1)) 5 [0]).
    right. rewrite axis_pool_length. simpl. lia.
  - apply (tournament_selection_errors (pool (axis_engine 2 1)) 0 []).
    repeat split; constructor.
Defined.

(** X8 at the worked instance: both individuals drawn, the less fit
    first. *)
Lemma full_tournament_returns_fittest_witness :
  individuals (pool (axis_engine 2 1)) ≠ []
  ∧ sample_ok (length (individuals (pool (axis_engine 2 1))))
      (Z.of_nat (length (individuals (pool (axis_engine 2 1))))) [0; 1]
  ∧ ∃ winner,
      tournament_selection (pool (axis_engine 2 1))
        (Z.of_nat (length (individuals (pool (axis_engine 2 1))))) [0; 1]
      = Ok winner
      ∧ winner ∈ individuals (pool (axis_engine 2 1))
      ∧ ∀ x, x ∈ individuals (pool (axis_engine 2 1)) →
             le_ (fitness (pool (axis_engine 2 1)) x)
                 (fitness (pool (axis_engine 2 1)) winner).
Proof.
  assert (Hne : individuals (pool (axis_engine 2 1)) ≠ [])
    by (apply axis_pool_nonempty; lia).
  assert (Hs : sample_ok (length (individuals (pool (axis_engine 2 1))))
                 (Z.of_nat (length (individuals (pool (axis_engine 2 1)))))
                 [0; 1]).
  { rewrite axis_pool_length. apply (bool_decide_unpack _). vm_compute. exact I. }
  split; [exact Hne |]. split; [exact Hs |].
  exact (full_tournament_returns_fittest (pool (axis_engine 2 1)) [0; 1] Hne Hs).
Defined.

(** X9 at the worked instance. *)
Lemma step_keeps_size_witness :
  step (axis_engine 2 1) (λ _, axis_offspring_draw)
  = Ok (axis_engine_after_step, 0)
  ∧ length (individuals (pool axis_engine_after_step))
    = length (individuals (pool (axis_engine 2 1)))
  ∧ head (individuals (pool axis_engine_after_step))
    = last (individuals (pool (axis_engine 2 1)))
  ∧ 0 ≤ length (individuals (pool (axis_engine 2 1))) - 1
  ∧ fitness (pool axis_engine_after_step) = fitness (pool (axis_engine 2 1))
  ∧ pair_params axis_engine_after_step = pair_params (axis_engine 2 1)
  ∧ mutate_params axis_engine_after_step = mutate_params (axis_engine 2 1)
  ∧ n_offsprings axis_engine_after_step = n_offsprings (axis_engine 2 1)
  ∧ tournament_size axis_engine_after_step = tournament_size (axis_engine 2 1).
Proof.
  split; [exact axis_step |].
  exact (step_keeps_size (axis_engine 2 1) axis_engine_after_step
           (λ _, axis_offspring_draw) 0 axis_step).
Defined.

(** X10 at the worked instance. *)
Lemma pair_with_itself_witness :
  NoDup (value (mkTSP [0; 1; 2; 3]))
  ∧ sample_ok (length (value (mkTSP [0; 1; 2; 3]))) 2 [2; 0]
  ∧ TSP_pair (mkTSP [0; 1; 2; 3]) (mkTSP [0; 1; 2; 3]) (1 # 2)%Q [2; 0]
    = Ok (mkTSP [0; 1; 2; 3]).
Proof.
  assert (Hnd : NoDup (value (mkTSP [0; 1; 2; 3])))
    by (apply (bool_decide_unpack _); vm_compute; exact I).
  assert (Hs : sample_ok (length (value (mkTSP [0; 1; 2; 3]))) 2 [2; 0])
    by (apply (bool_decide_unpack _); vm_compute; exact I).
  split; [exact Hnd |]. split; [exact Hs |].
  exact (pair_with_itself (mkTSP [0; 1; 2; 3]) (1 # 2)%Q [2; 0] Hnd Hs).
Defined.

(** X11 at a single city. *)
Lemma operators_need_two_cities_witness :
  length (value (mkTSP [0])) < 2
  ∧ TSP_pair (mkTSP [0]) (mkTSP [0]) (1 # 2)%Q [0; 1] = Raise ValueError
  ∧ TSP_mutate (mkTSP [0]) (1 # 100)%Q (mkMutateDraw 0%Q [0; 1])
    = if nltb (coin (mkMutateDraw 0%Q [0; 1])) (1 # 100)%Q
      then Raise ValueError else Ok (mkTSP [0], false).
Proof.
  assert (Hlen : length (value (mkTSP [0])) < 2) by (simpl; lia).
  split; [exact Hlen |].
  exact (operators_need_two_cities (mkTSP [0]) (mkTSP [0]) (1 # 2)%Q
           (1 # 100)%Q [0; 1] (mkMutateDraw 0%Q [0; 1]) Hlen).
Defined.

(** X12 at the worked instance. *)
Lemma mutate_twice_restores_witness :
  nltb (coin (mkMutateDraw 0%Q [3; 1])) (1 # 100)%Q = true
  ∧ sample_ok (length (value (mkTSP [0; 1; 2; 3]))) 2
      (swap_draw (mkMutateDraw 0%Q [3; 1]))
  ∧ ∃ self',
      TSP_mutate (mkTSP [0; 1; 2; 3]) (1 # 100)%Q (mkMutateDraw 0%Q [3; 1])
      = Ok (self', true)
      ∧ TSP_mutate self' (1 # 100)%Q (mkMutateDraw 0%Q [3; 1])
        = Ok (mkTSP [0; 1; 2; 3], true).
Proof.
  assert (Hfire : nltb (coin (mkMutateDraw 0%Q [3; 1])) (1 # 100)%Q = true)
    by reflexivity.
  assert (Hs : sample_ok (length (value (mkTSP [0; 1; 2; 3]))) 2
                 (swap_draw (mkMutateDraw 0%Q [3; 1])))
    by (apply (bool_decide_unpack _); vm_compute; exact I).
  split; [exact Hfire |]. split; [exact Hs |].
  exact (mutate_twice_restores (mkTSP [0; 1; 2; 3]) (1 # 100)%Q
           (mkMutateDraw 0%Q [3; 1]) Hfire Hs).
Defined.

(** X13 at the worked instance. *)
Lemma step_counts_fired_mutations_witness :
  individuals (pool (axis_engine 2 1)) ≠ []
  ∧ Forall (is_route 4) (individuals (pool (axis_engine 2 1)))
  ∧ (1 ≤ tournament_size (axis_engine 2 1)
     ≤ Z.of_nat (length (individuals (pool (axis_engine 2 1)))))%Z
  ∧ step_draws_ok 4 (axis_engine 2 1) (λ _, axis_offspring_draw)
  ∧ ∃ self',
      step (axis_engine 2 1) (λ _, axis_offspring_draw)
      = Ok (self',
            length (filter
              (λ p, nltb (coin (mutate_draw ((λ _, axis_offspring_draw) p)))
                      (mutate_params (axis_engine 2 1) : Q) = true)
              (seq 0 (length (individuals (pool (axis_engine 2 1))) - 1)))).
Proof.
  split; [exact (valid_pool _ _ axis_engine_valid) |].
  split; [exact (valid_routes _ _ axis_engine_valid) |].
  split; [exact (valid_tournament _ _ axis_engine_valid) |].
  split; [exact axis_step_draws_ok |].
  exact (step_counts_fired_mutations 4 (axis_engine 2 1)
           (λ _, axis_offspring_draw)
           (valid_pool _ _ axis_engine_valid)
           (valid_routes _ _ axis_engine_valid)
           (valid_tournament _ _ axis_engine_valid)
           axis_step_draws_ok).
Defined.

(** X15 at the worked instance: a population size of 0. *)
Lemma run_with_empty_population_witness :
  (0 < 1)%Z
  ∧ outcome (axis_run 0 1 3 true) = ([], Raise IndexError).
Proof.
  assert (Hsize : (0 < 1)%Z) by lia.
  split; [exact Hsize |]. unfold axis_run.
  exact (run_with_empty_population axis_norm axis_env axis_draws axis_cities
           None 0 1 (1 # 100)%Q 30 3 (1 # 2)%Q true Hsize).
Defined.

(** X16 at the worked instance: a tournament of 5 on a population of
    2. *)
Lemma run_with_oversized_tournament_witness :
  (2 ≤ 2)%Z ∧ (2 < 5)%Z ∧ (1 ≤ 3)%Z
  ∧ outcome (axis_run 2 5 3 true) = ([], Raise ValueError).
Proof.
  assert (Hsize : (2 ≤ 2)%Z) by lia.
  assert (Hk : (2 < 5)%Z) by lia.
  assert (Hepochs : (1 ≤ 3)%Z) by lia.
  split; [exact Hsize |]. split; [exact Hk |]. split; [exact Hepochs |].
  unfold axis_run.
  exact (run_with_oversized_tournament axis_norm axis_env axis_draws
           axis_cities None 2 5 (1 # 100)%Q 30 3 (1 # 2)%Q true
           Hsize Hk Hepochs).
Defined.

(** X17 at the worked instance: three epochs on the population of
    two. *)
Lemma run_on_valid_input_witness :
  (1 ≤ 2)%Z ∧ 2 ≤ length axis_cities ∧ (1 ≤ 1 ≤ 2)%Z
  ∧ run_draws_ok (length axis_cities) 2 1 (1 # 100)%Q axis_draws
  ∧ (false = false ∨ 3%Z ≠ 0%Z)
  ∧ results_dir_ok axis_env = true
  ∧ ∃ r,
      outcome (axis_run 2 1 3 false) = (run_files, Ok r)
      ∧ Z.of_nat (length (length_history r)) = (1 + Z.max 3 0)%Z
      ∧ best_route r ≡ₚ seq 0 (length axis_cities).
Proof.
  assert (Hpop : (1 ≤ 2)%Z) by lia.
  assert (Hcities : 2 ≤ length axis_cities) by (simpl; lia).
  assert (Hk : (1 ≤ 1 ≤ 2)%Z) by lia.
  assert (Hverbose : false = false ∨ 3%Z ≠ 0%Z) by (left; reflexivity).
  split; [exact Hpop |]. split; [exact Hcities |]. split; [exact Hk |].
  split; [exact axis_run_draws_ok |]. split; [exact Hverbose |].
  split; [reflexivity |].
  unfold axis_run.
  exact (run_on_valid_input axis_norm axis_env axis_draws axis_cities 2 1
           (1 # 100)%Q 30 3 (1 # 2)%Q false Hpop Hcities Hk
           axis_run_draws_ok Hverbose eq_refl).
Defined.

(** X18 at the worked instance: [n_epochs = -3] with [verbose] set. *)
Lemma run_without_epochs_witness :
  (-3 ≤ 0)%Z ∧ (true = false ∨ (-3)%Z ≠ 0%Z) ∧ (1 ≤ 2)%Z
  ∧ axis_cities ≠ []
  ∧ (∀ i, permutation_ok (length axis_cities) (init_draws axis_draws i))
  ∧ ∃ best initial,
      get_best_individual (pool (axis_engine 2 1)) = Ok best
      ∧ initial = nneg (score axis_distances best)
      ∧ outcome (axis_run 2 1 (-3) true)
        = if results_dir_ok axis_env
          then (run_files,
                Ok (mkRunResult (value best) initial
                      (nmul (ndiv (nsub initial initial) initial) nhundred)
                      [initial] (elapsed axis_env) 0 0 0))
          else ([], Raise FileNotFoundError).
Proof.
  assert (Hepochs : (-3 ≤ 0)%Z) by lia.
  assert (Hverbose : true = false ∨ (-3)%Z ≠ 0%Z) by (right; lia).
  assert (Hpop : (1 ≤ 2)%Z) by lia.
  assert (Hcities : axis_cities ≠ []) by discriminate.
  assert (Hinit : ∀ i, permutation_ok (length axis_cities)
                         (init_draws axis_draws i))
    by exact axis_init_draws_ok.
  split; [exact Hepochs |]. split; [exact Hverbose |]. split; [exact Hpop |].
  split; [exact Hcities |]. split; [exact Hinit |].
  unfold axis_run, axis_engine, axis_distances.
  exact (run_without_epochs axis_norm axis_env axis_draws axis_cities 2 1
           (1 # 100)%Q 30 (-3) (1 # 2)%Q true Hepochs Hverbose Hpop Hcities
           Hinit).
Defined.


(** X20 at the worked instance: the run of one epoch whose reported
    length rises from 6 to 8. *)
Lemma returned_result_bookkeeping_witness :
  (axis_run 2 1 1 false).2
  = Ok (mkRunResult [0; 1; 2; 3] 8%Q (-200 # 6)%Q [6%Q; 8%Q] 1%Q 0 0 0)
  ∧ ∃ best,
      get_best_individual (pool (axis_engine 2 1)) = Ok best
      ∧ head [6%Q; 8%Q] = Some (nneg (score axis_distances best))
      ∧ Z.of_nat (length [6%Q; 8%Q]) = (1 + Z.max 1 0)%Z
      ∧ last [6%Q; 8%Q] = Some 8%Q
      ∧ (Z.of_nat 0 ≤ Z.max 1 0)%Z
      ∧ (Z.of_nat 0 ≤ Z.max (1 - 1) 0)%Z
      ∧ (Z.of_nat 0 ≤ Z.max 1 0 * Z.max (2 - 1) 0)%Z
      ∧ 1%Q = elapsed axis_env.
Proof.
  assert (Hrun : (axis_run 2 1 1 false).2
                 = Ok (mkRunResult [0; 1; 2; 3] 8%Q (-200 # 6)%Q
                         [6%Q; 8%Q] 1%Q 0 0 0))
    by (vm_compute; reflexivity).
  split; [exact Hrun |].
  exact (returned_result_bookkeeping axis_norm axis_env axis_draws axis_cities
           None 2 1 (1 # 100)%Q 30 1 (1 # 2)%Q false _ Hrun).
Defined.

(** X21 at the worked instance. *)
Lemma best_after_construction_witness :
  (1 ≤ 2)%Z
  ∧ ∃ best,
      get_best_individual
        (Population_init (I:=TSP) (H0:=TSP_Individual) 2
           (score axis_distances) 4 axis_init_draws) = Ok best
      ∧ best ∈ individuals
                 (Population_init (I:=TSP) (H0:=TSP_Individual) 2
                    (score axis_distances) 4 axis_init_draws)
      ∧ ∀ x, x ∈ individuals
                   (Population_init (I:=TSP) (H0:=TSP_Individual) 2
                      (score axis_distances) 4 axis_init_draws) →
             le_ (score axis_distances x) (score axis_distances best).
Proof.
  assert (Hsize : (1 ≤ 2)%Z) by lia.
  split; [exact Hsize |].
  exact (best_after_construction (I:=TSP) (H1:=TSP_Individual) 2
           (score axis_distances) 4 axis_init_draws Hsize).
Defined.

(** ** Elitism from the second generation on *)

Lemma axis_second_step_draws_ok :
  step_draws_ok 4 axis_engine_after_step (λ _, axis_second_draw).
Proof.
  intros pass _.
  repeat split; try (apply (bool_decide_unpack _); vm_compute; exact I).
  vm_compute. discriminate.
Qed.

Lemma axis_second_step :
  step axis_engine_after_step (λ _, axis_second_draw)
  = Ok (axis_engine_after_two_steps, 0).
Proof.
  apply (step_individuals axis_engine_after_step). vm_compute. reflexivity.
Qed.

(** C2 (where the code departs from it). The engine state
    [[0-1-2-3; 0-2-1-3]] is the one a first [step] leaves from the
    constructed population; it is not empty, holds routes over the four
    cities, and its tournament size 1 lies within the population size 2.
    A second [step] whose draws meet their contracts returns the
    population [[0-2-1-3; 0-2-1-3]]: the individual carried over is
    0-2-1-3, the last of the list and not the fittest, 0-1-2-3 (fitness
    -6) is lost, and every fitness of the new population (-8) is below
    it. The run of two epochs on these draws reports the lengths 6, 8,
    8. The step stores the new generation unsorted, as in C1. *)
Theorem elitism_lost_in_second_step :
  step (axis_engine 2 1) (λ _, axis_offspring_draw)
  = Ok (axis_engine_after_step, 0)
  ∧ individuals (pool axis_engine_after_step) ≠ []
  ∧ Forall (is_route 4) (individuals (pool axis_engine_after_step))
  ∧ (1 ≤ tournament_size axis_engine_after_step
     ≤ Z.of_nat (length (individuals (pool axis_engine_after_step))))%Z
  ∧ step_draws_ok 4 axis_engine_after_step (λ _, axis_second_draw)
  ∧ step axis_engine_after_step (λ _, axis_second_draw)
    = Ok (axis_engine_after_two_steps, 0)
  ∧ mkTSP [0; 1; 2; 3] ∈ individuals (pool axis_engine_after_step)
  ∧ (∀ x, x ∈ individuals (pool axis_engine_after_step) →
          le_ (fitness (pool axis_engine_after_step) x)
              (fitness (pool axis_engine_after_step) (mkTSP [0; 1; 2; 3])))
  ∧ (mkTSP [0; 1; 2; 3] ∉ individuals (pool axis_engine_after_two_steps))
  ∧ (∀ y, y ∈ individuals (pool axis_engine_after_two_steps) →
          lt_ (fitness (pool axis_engine_after_two_steps) y)
              (fitness (pool axis_engine_after_step) (mkTSP [0; 1; 2; 3])))
  ∧ run_draws_ok (length axis_cities) 2 1 (1 # 100)%Q axis_two_epoch_draws
  ∧ ∃ r, (run_tsp_evolution axis_norm axis_env axis_two_epoch_draws
            axis_cities None 2 1 (1 # 100)%Q 30 2 (1 # 2)%Q false).2 = Ok r
         ∧ length_history r = [6%Q; 8%Q; 8%Q].
Proof.
  split; [apply axis_step |].
  split; [done |].
  split.
  { unfold is_route. cbn [axis_engine_after_step pool individuals].
    repeat constructor;
      apply (bool_decide_unpack _); vm_compute; exact I. }
  split; [simpl; lia |].
  split; [apply axis_second_step_draws_ok |].
  split; [apply axis_second_step |].
  split; [left |].
  split.
  { intros x Hx. cbn [axis_engine_after_step pool individuals] in Hx.
    apply elem_of_cons in Hx as [-> | Hx];
      [vm_compute; by intros [=] |].
    apply list_elem_of_singleton in Hx as ->. vm_compute. by intros [=]. }
  split.
  { cbn [axis_engine_after_two_steps pool individuals].
    intros Hin. apply elem_of_cons in Hin as [[=] | Hin].
    by apply list_elem_of_singleton in Hin as [=]. }
  split.
  { intros y Hy. cbn [axis_engine_after_two_steps pool individuals] in Hy.
    apply elem_of_cons in Hy as [-> | Hy]; [vm_compute; reflexivity |].
    apply list_elem_of_singleton in Hy as ->. vm_compute. reflexivity. }
  split.
  { split; [apply axis_init_draws_ok |].
    intros [| epoch] pass; cbn [axis_two_epoch_draws epoch_draws];
      [apply axis_offspring_draw_ok |].
    repeat split; try (apply (bool_decide_unpack _); vm_compute; exact I).
    vm_compute. discriminate. }
  eexists. split; [vm_compute; reflexivity |]. done.
Qed.
